(** * A shallow embedding of the crawler of [src/web_crawler.py]

    The development follows the source file top-down:

    - [PyStr]: the [str] methods the program and [urllib.parse] call;
    - [urllib_parse]: [urlsplit], [urlparse], [urlunparse] and [urljoin]
      of the Python standard library, which [Crawler.get_linked_urls]
      calls on every anchor;
    - [Crawler]: the class itself, as state-passing functions over a record
      of its attributes, with the collaborators the program drives (the
      Playwright page, the BeautifulSoup parser, the [ipaddress] module)
      gathered in one interface, [Platform];
    - the theorems about the frontier, the extractor and the loop: first
      the claims C1 to C10 of the specification, then further properties
      X1 to X14 read off the code. *)

From Stdlib Require Import Ascii String.
From stdpp Require Import base decidable option list relations gmap strings.
From Stdlib Require Import ZArith Lia.

Local Open Scope string_scope.

(** ** Python results

    A call either returns a value or raises an instance of [Exception].
    [BaseException]s that are not [Exception]s ([KeyboardInterrupt],
    [SystemExit], [asyncio.CancelledError]) come from the interpreter or the
    scheduler, not from the calls of the program, and are not modelled. *)

Inductive PyExc : Type :=
  | ValueError (msg : string)
  | KeyError (key : string)
  | OtherError (msg : string).

Inductive PyResult (A : Type) : Type :=
  | Return (a : A)
  | Raise (e : PyExc).
Arguments Return {A} a.
Arguments Raise {A} e.

#[global] Instance PyResult_ret : MRet PyResult := fun _ a => Return a.
#[global] Instance PyResult_bind : MBind PyResult := fun _ _ k r =>
  match r with
  | Return a => k a
  | Raise e => Raise e
  end.

#[global] Instance PyResult_fmap : FMap PyResult := fun _ _ f r =>
  match r with
  | Return a => Return (f a)
  | Raise e => Raise e
  end.

(** ** The [str] methods used by the program *)

Module PyStr.

(** [s.startswith(p)] *)
Definition startswith (s p : string) : bool := String.prefix p s.

(** [c in s] for a one-character [c] *)
Fixpoint contains (c : ascii) (s : string) : bool :=
  match s with
  | EmptyString => false
  | String d s' => if Ascii.eqb c d then true else contains c s'
  end.

(** [s.find(c)]; [None] stands for Python's [-1] *)
Fixpoint find (c : ascii) (s : string) : option nat :=
  match s with
  | EmptyString => None
  | String d s' => if Ascii.eqb c d then Some 0 else S <$> find c s'
  end.

(** [s.rfind(c)] *)
Fixpoint rfind (c : ascii) (s : string) : option nat :=
  match s with
  | EmptyString => None
  | String d s' =>
      match rfind c s' with
      | Some i => Some (S i)
      | None => if Ascii.eqb c d then Some 0 else None
      end
  end.

(** [s[:n]] and [s[n:]] for [0 <= n] *)
Fixpoint take (n : nat) (s : string) : string :=
  match n, s with
  | S n', String c s' => String c (take n' s')
  | _, _ => EmptyString
  end.

Fixpoint drop (n : nat) (s : string) : string :=
  match n, s with
  | S n', String _ s' => drop n' s'
  | _, _ => s
  end.

(** [s.partition(c)]: the part before the first [c], whether [c] was
    found, the part after it *)
Definition partition (c : ascii) (s : string) : string * bool * string :=
  match find c s with
  | Some i => (take i s, true, drop (S i) s)
  | None => (s, false, EmptyString)
  end.

(** [s.rpartition(c)[2]] *)
Definition rpartition_tail (c : ascii) (s : string) : string :=
  match rfind c s with
  | Some i => drop (S i) s
  | None => s
  end.

(** [s.split(c)] *)
Fixpoint split (c : ascii) (s : string) : list string :=
  match s with
  | EmptyString => [EmptyString]
  | String d s' =>
      if Ascii.eqb c d then EmptyString :: split c s'
      else match split c s' with
           | w :: ws => String d w :: ws
           | [] => [String d EmptyString]
           end
  end.

(** [sep.join(parts)] *)
Fixpoint join (sep : string) (parts : list string) : string :=
  match parts with
  | [] => EmptyString
  | [w] => w
  | w :: ws => w ++ sep ++ join sep ws
  end.

(** [s.replace(c, "")] *)
Fixpoint remove (c : ascii) (s : string) : string :=
  match s with
  | EmptyString => EmptyString
  | String d s' => if Ascii.eqb c d then remove c s' else String d (remove c s')
  end.

(** [s.lstrip(chars)], [s.rstrip(chars)] and [s.strip(chars)] for a set
    of characters given as a predicate *)
Fixpoint lstrip (p : ascii → bool) (s : string) : string :=
  match s with
  | EmptyString => EmptyString
  | String d s' => if p d then lstrip p s' else s
  end.

Fixpoint rstrip (p : ascii → bool) (s : string) : string :=
  match s with
  | EmptyString => EmptyString
  | String d s' =>
      match rstrip p s' with
      | EmptyString => if p d then EmptyString else String d EmptyString
      | r => String d r
      end
  end.

Definition strip (p : ascii → bool) (s : string) : string :=
  rstrip p (lstrip p s).

Definition between (lo hi : nat) (c : ascii) : bool :=
  (lo <=? nat_of_ascii c)%nat && (nat_of_ascii c <=? hi)%nat.

Definition is_upper (c : ascii) : bool := between 65 90 c.
Definition is_lower (c : ascii) : bool := between 97 122 c.
Definition is_digit (c : ascii) : bool := between 48 57 c.

(** [c.isascii() and c.isalpha()] *)
Definition is_ascii_alpha (c : ascii) : bool := is_upper c || is_lower c.

(** [s.lower()] (the program lowers scheme names only: ASCII) *)
Definition lower_char (c : ascii) : ascii :=
  if is_upper c then ascii_of_nat (nat_of_ascii c + 32) else c.

Fixpoint lower (s : string) : string :=
  match s with
  | EmptyString => EmptyString
  | String d s' => String (lower_char d) (lower s')
  end.

Fixpoint all_chars (p : ascii → bool) (s : string) : bool :=
  match s with
  | EmptyString => true
  | String d s' => p d && all_chars p s'
  end.

(** truth value of a string: [bool(s)] *)
Definition truthy (s : string) : bool :=
  match s with
  | EmptyString => false
  | _ => true
  end.

End PyStr.

(** ** [urllib.parse] (CPython 3.11)

    A [string] is a [str] whose characters are code points below 256; a
    [str] with other characters has no counterpart here, and nothing below
    speaks about it. The [lru_cache] of [urlsplit] is transparent and left
    out. [allow_fragments] has its default, [True], at every call of the
    program. *)

Inductive IPVersion : Type := IPv4Address | IPv6Address.

Module urllib_parse.

Import PyStr.

Definition mem (s : string) (l : list string) : bool :=
  existsb (String.eqb s) l.

Definition uses_relative : list string :=
  [""; "ftp"; "http"; "gopher"; "nntp"; "imap";
   "wais"; "file"; "https"; "shttp"; "mms";
   "prospero"; "rtsp"; "rtspu"; "sftp";
   "svn"; "svn+ssh"; "ws"; "wss"].

Definition uses_netloc : list string :=
  [""; "ftp"; "http"; "gopher"; "nntp"; "telnet";
   "imap"; "wais"; "file"; "mms"; "https"; "shttp";
   "snews"; "prospero"; "rtsp"; "rtspu"; "rsync";
   "svn"; "svn+ssh"; "sftp"; "nfs"; "git"; "git+ssh";
   "ws"; "wss"].

Definition uses_params : list string :=
  [""; "ftp"; "hdl"; "prospero"; "http"; "imap";
   "https"; "shttp"; "rtsp"; "rtspu"; "sip"; "sips";
   "mms"; "sftp"; "tel"].

(** [c in scheme_chars] *)
Definition scheme_char (c : ascii) : bool :=
  is_lower c || is_upper c || is_digit c
  || Ascii.eqb c "+" || Ascii.eqb c "-" || Ascii.eqb c ".".

(** [c in _WHATWG_C0_CONTROL_OR_SPACE] *)
Definition c0_control_or_space (c : ascii) : bool :=
  (nat_of_ascii c <=? 32)%nat.

(** the loop over [_UNSAFE_URL_BYTES_TO_REMOVE] *)
Definition remove_unsafe (s : string) : string :=
  remove "010" (remove "013" (remove "009" s)).

Record SplitResult : Type := mkSplit
  { s_scheme : string; s_netloc : string; s_path : string;
    s_query : string; s_fragment : string }.

Record ParseResult : Type := mkParse
  { scheme : string; netloc : string; path : string;
    params : string; query : string; fragment : string }.

(** [url.find(c, start)] for [start <= len(url)] *)
Definition find_from (c : ascii) (start : nat) (url : string) : option nat :=
  (fun i => start + i) <$> find c (drop start url).

Definition _splitnetloc (url : string) (start : nat) : string * string :=
  let delim :=
    foldl (fun delim c =>
             match find_from c start url with
             | Some wdelim => Nat.min delim wdelim
             | None => delim
             end)
          (String.length url) ["/"; "?"; "#"]%char in
  (take (delim - start) (drop start url), drop delim url).

Definition is_hexdig (c : ascii) : bool :=
  is_digit c || between 97 102 c || between 65 70 c.

(** [re.match(r"\Av[a-fA-F0-9]+\..+\Z", hostname)]: a [v], one or more
    hexadecimal digits, a dot, one or more characters other than a
    newline *)
Definition ipvfuture_re (hostname : string) : bool :=
  match hostname with
  | String "v" rest =>
      let after := lstrip is_hexdig rest in
      negb (String.length after =? String.length rest)%nat
      && match after with
         | String "." tail =>
             truthy tail && all_chars (fun c => negb (Ascii.eqb c "010")) tail
         | _ => false
         end
  | _ => false
  end.

(** [c.isascii()] *)
Definition is_ascii (c : ascii) : bool := (nat_of_ascii c <? 128)%nat.

(** [unicodedata.normalize('NFKC', c) == c] for a character below 256: all
    but the no-break space, the spacing diacritics, the ordinal
    indicators, the superscript digits, the micro sign and the vulgar
    fractions. No two characters below 256 compose, so a string of such
    characters is its own normal form exactly when each character is. *)
Definition nfkc_stable (c : ascii) : bool :=
  negb (existsb (Nat.eqb (nat_of_ascii c))
          [160; 168; 170; 175; 178; 179; 180; 181; 184; 185; 186; 188; 189;
           190]).

(** [_checknetloc]. The normal form of no character below 256 has one of
    [/?#@:], so the normal form of [n] has one of them exactly when [n]
    has. *)
Definition _checknetloc (netloc : string) : PyResult unit :=
  if negb (truthy netloc) || all_chars is_ascii netloc then Return tt
  else
    let n := remove "?" (remove "#" (remove ":" (remove "@" netloc))) in
    if all_chars nfkc_stable n then Return tt
    else if existsb (fun c => contains c n) ["/"; "?"; "#"; "@"; ":"]%char
         then Raise (ValueError
                       ("netloc '" ++ netloc
                        ++ "' contains invalid characters under NFKC normalization"))
         else Return tt.

Section WithIpaddress.

(** [ipaddress.ip_address]: the class of the parsed address, or the
    [ValueError] of a string that is no address *)
Variable ip_address : string → PyResult IPVersion.

Definition _check_bracketed_host (hostname : string) : PyResult unit :=
  if startswith hostname "v" then
    if negb (ipvfuture_re hostname)
    then Raise (ValueError "IPvFuture address is invalid")
    else Return tt
  else
    ip ← ip_address hostname;
    match ip with
    | IPv4Address => Raise (ValueError "An IPv4 address cannot be in brackets")
    | IPv6Address => Return tt
    end.

Definition _check_bracketed_netloc (netloc : string) : PyResult unit :=
  let hostname_and_port := rpartition_tail "@" netloc in
  let '(before_bracket, have_open_br, bracketed) :=
    partition "[" hostname_and_port in
  if have_open_br then
    if truthy before_bracket then Raise (ValueError "Invalid IPv6 URL")
    else
      let '(hostname, _, port) := partition "]" bracketed in
      if truthy port && negb (startswith port ":")
      then Raise (ValueError "Invalid IPv6 URL")
      else _check_bracketed_host hostname
  else
    let '(hostname, _, _) := partition ":" hostname_and_port in
    _check_bracketed_host hostname.

Definition urlsplit (url scheme : string) : PyResult SplitResult :=
  let url := lstrip c0_control_or_space url in
  let scheme := strip c0_control_or_space scheme in
  let url := remove_unsafe url in
  let scheme := remove_unsafe scheme in
  let '(scheme, url) :=
    match find ":" url, url with
    | Some (S i'), String c0 _ =>
        if is_ascii_alpha c0 && all_chars scheme_char (take (S i') url)
        then (lower (take (S i') url), drop (S (S i')) url)
        else (scheme, url)
    | _, _ => (scheme, url)
    end in
  '(netloc, url) ←
    (if String.eqb (take 2 url) "//" then
       let '(netloc, url) := _splitnetloc url 2 in
       if (contains "[" netloc && negb (contains "]" netloc))
          || (contains "]" netloc && negb (contains "[" netloc))
       then Raise (ValueError "Invalid IPv6 URL")
       else
         if contains "[" netloc && contains "]" netloc
         then _check_bracketed_netloc netloc ≫= (fun _ => Return (netloc, url))
         else Return (netloc, url)
     else Return ("", url));
  let '(url, fragment) :=
    if contains "#" url
    then let '(u, _, f) := partition "#" url in (u, f)
    else (url, "") in
  let '(url, query) :=
    if contains "?" url
    then let '(u, _, q) := partition "?" url in (u, q)
    else (url, "") in
  _ ← _checknetloc netloc;
  Return (mkSplit scheme netloc url query fragment).

Definition _splitparams (url : string) : string * string :=
  let i :=
    if contains "/" url then
      match rfind "/" url with
      | Some r => find_from ";" r url
      | None => None
      end
    else find ";" url in
  match i with
  | Some i => (take i url, drop (S i) url)
  | None => (url, "")
  end.

Definition urlparse (url scheme : string) : PyResult ParseResult :=
  splitresult ← urlsplit url scheme;
  let '(mkSplit scheme netloc url query fragment) := splitresult in
  let '(url, params) :=
    if mem scheme uses_params && contains ";" url
    then _splitparams url
    else (url, "") in
  Return (mkParse scheme netloc url params query fragment).

Definition urlunsplit (scheme netloc url query fragment : string) : string :=
  let url :=
    if truthy netloc
       || (truthy scheme && mem scheme uses_netloc
           && negb (String.eqb (take 2 url) "//"))
    then
      let url :=
        if truthy url && negb (String.eqb (take 1 url) "/")
        then "/" ++ url else url in
      "//" ++ netloc ++ url
    else url in
  let url := if truthy scheme then scheme ++ ":" ++ url else url in
  let url := if truthy query then url ++ "?" ++ query else url in
  let url := if truthy fragment then url ++ "#" ++ fragment else url in
  url.

Definition urlunparse (scheme netloc url params query fragment : string)
  : string :=
  let url := if truthy params then url ++ ";" ++ params else url in
  urlunsplit scheme netloc url query fragment.

(** [segments[1:-1] = filter(None, segments[1:-1])] *)
Definition filter_inner (segments : list string) : list string :=
  match segments with
  | first :: (_ :: _) as rest =>
      (first :: filter (fun s => truthy s = true) (removelast rest)
             ++ [List.last rest ""])%list
  | _ => segments
  end.

(** the loop of [urljoin] over [segments] *)
Definition resolve (segments : list string) : list string :=
  foldl (fun resolved_path seg =>
           if String.eqb seg ".." then removelast resolved_path
           else if String.eqb seg "." then resolved_path
           else (resolved_path ++ [seg])%list)
        [] segments.

Definition urljoin (base url : string) : PyResult string :=
  if negb (truthy base) then Return url
  else if negb (truthy url) then Return base
  else
    b ← urlparse base "";
    u ← urlparse url (scheme b);
    if negb (String.eqb (scheme u) (scheme b))
       || negb (mem (scheme u) uses_relative)
    then Return url
    else
      if mem (scheme u) uses_netloc && truthy (netloc u)
      then Return (urlunparse (scheme u) (netloc u) (path u)
                              (params u) (query u) (fragment u))
      else
        let netloc' :=
          if mem (scheme u) uses_netloc then netloc b else netloc u in
        if negb (truthy (path u)) && negb (truthy (params u))
        then
          let query' := if negb (truthy (query u)) then query b else query u in
          Return (urlunparse (scheme u) netloc' (path b) (params b)
                             query' (fragment u))
        else
          let base_parts := split "/" (path b) in
          let base_parts :=
            if negb (String.eqb (List.last base_parts "") "")
            then removelast base_parts else base_parts in
          let segments :=
            if String.eqb (take 1 (path u)) "/"
            then split "/" (path u)
            else filter_inner (base_parts ++ split "/" (path u))%list in
          let resolved_path := resolve segments in
          let resolved_path :=
            if mem (List.last segments "") ["."; ".."]
            then (resolved_path ++ [""])%list else resolved_path in
          let joined := join "/" resolved_path in
          Return (urlunparse (scheme u) netloc'
                             (if truthy joined then joined else "/")
                             (params u) (query u) (fragment u)).

End WithIpaddress.

End urllib_parse.

(** ** The collaborators of the crawler

    The program drives three libraries whose code is not part of it. They
    are taken as an interface; every theorem below holds for each
    implementation of it. *)

(** A tag of a parsed document, as [bs4.element.Tag] shows it to the
    program: its name and its attribute dictionary. *)
Record Tag : Type := mkTag
  { tag_name : string;
    tag_attrs : gmap string string }.

Class Platform : Type := mkPlatform
  { (** the state of the Playwright session behind [self.page] *)
    Browser : Type;
    (** [await self.page.goto(url, wait_until='domcontentloaded',
        timeout=180000)] *)
    page_goto : string → Browser → Browser * PyResult unit;
    (** [await self.page.wait_for_load_state('networkidle',
        timeout=180000)] *)
    page_wait_for_load_state : Browser → Browser * PyResult unit;
    (** [await self.page.content()] *)
    page_content : Browser → Browser * PyResult string;
    (** [BeautifulSoup(html, 'html.parser')]: the tags of the document, in
        document order, or the exception of a rejected markup *)
    BeautifulSoup : string → PyResult (list Tag);
    (** [ipaddress.ip_address], called by [urllib.parse] on bracketed
        hosts *)
    ip_address : string → PyResult IPVersion }.

Inductive Level : Type := INFO | ERROR.

(** [str(e)] *)
Definition str_exc (e : PyExc) : string :=
  match e with
  | ValueError msg => msg
  | KeyError key => "'" ++ key ++ "'"
  | OtherError msg => msg
  end.

Definition newline : string := String "010" EmptyString.

Module Crawler.

Import PyStr.

Section WithPlatform.

Context `{P : Platform}.

(** The attributes of a [Crawler] object, together with the parts of
    the world its methods write to: the files ([open(..., 'a')]), here
    a map from paths to contents, and the records handed to
    [logging]. File writes and logging calls are taken to succeed. *)
Record State : Type := mkState
  { urls : list string;
    max_urls : Z;
    output_file : string;
    visited_urls : gset string;
    urls_to_visit : gset string;
    page : Browser;
    files : gmap string string;
    log : list (Level * string) }.

Definition set_visited_urls (v : gset string) (s : State) : State :=
  mkState (urls s) (max_urls s) (output_file s) v (urls_to_visit s)
          (page s) (files s) (log s).

Definition set_urls_to_visit (t : gset string) (s : State) : State :=
  mkState (urls s) (max_urls s) (output_file s) (visited_urls s) t
          (page s) (files s) (log s).

Definition set_page (b : Browser) (s : State) : State :=
  mkState (urls s) (max_urls s) (output_file s) (visited_urls s)
          (urls_to_visit s) b (files s) (log s).

Definition set_files (f : gmap string string) (s : State) : State :=
  mkState (urls s) (max_urls s) (output_file s) (visited_urls s)
          (urls_to_visit s) (page s) f (log s).

Definition set_log (l : list (Level * string)) (s : State) : State :=
  mkState (urls s) (max_urls s) (output_file s) (visited_urls s)
          (urls_to_visit s) (page s) (files s) l.

(** *** Methods as state-passing computations that may raise *)

Definition M (A : Type) : Type := State → State * PyResult A.

#[local] Instance M_ret : MRet M := fun _ a s => (s, Return a).
#[local] Instance M_bind : MBind M := fun _ _ k m s =>
  match m s with
  | (s', Return a) => k a s'
  | (s', Raise e) => (s', Raise e)
  end.

Definition raise {A} (e : PyExc) : M A := fun s => (s, Raise e).

Definition modify (f : State → State) : M unit := fun s => (f s, Return tt).

(** [try: body except Exception as e: handler(e)] *)
Definition try_except {A} (body : M A) (handler : PyExc → M A) : M A :=
  fun s =>
    match body s with
    | (s', Return a) => (s', Return a)
    | (s', Raise e) => handler e s'
    end.

(** [try: body finally: final]: [final] runs on both exits; an
    exception of [final] replaces the one of [body] *)
Definition try_finally {A} (body : M A) (final : M unit) : M A :=
  fun s =>
    match body s with
    | (s', r) =>
        match final s' with
        | (s'', Return _) => (s'', r)
        | (s'', Raise e) => (s'', Raise e)
        end
    end.

(** an awaited call on [self.page] *)
Definition on_page {A} (call : Browser → Browser * PyResult A) : M A :=
  fun s => let '(b, r) := call (page s) in (set_page b s, r).

Definition logging (lvl : Level) (msg : string) : M unit :=
  modify (fun s => set_log (log s ++ [(lvl, msg)]) s).

(** *** [Crawler.__init__]: the fresh object, in a world with the given
    page, files and log *)
Definition init (urls : list string) (max_urls : Z) (output_file : string)
    (b : Browser) (fs : gmap string string) (lg : list (Level * string))
  : State :=
  mkState urls max_urls output_file ∅ (list_to_set urls) b fs lg.

(** *** [Crawler.save_visited_urls]

    [order] is the order in which [for url in self.visited_urls]
    enumerates the set: Python leaves it to the hash table. *)
Definition write_lines (order : list string) : string :=
  foldl (fun out url => out ++ (url ++ newline)) "" order.

Definition save_visited_urls (order : list string) : M unit :=
  modify (fun s =>
    set_files (<[output_file s :=
                  default "" (files s !! output_file s) ++ write_lines order]>
                 (files s)) s).

(** *** [Crawler.download_url] *)

(** the body of the [try] *)
Definition download_url_try (url : string) : M (option string) :=
  _ ← on_page (page_goto url);
  _ ← on_page page_wait_for_load_state;
  html ← on_page page_content;
  mret (Some html).

Definition download_url (url : string) : M (option string) :=
  try_except (download_url_try url)
    (fun e =>
       _ ← logging ERROR ("Error downloading " ++ url ++ ": " ++ str_exc e);
       mret None).

(** *** [Crawler.get_linked_urls] *)

(** [soup.find_all('a', href=True)] *)
Definition find_all_a_href (soup : list Tag) : list Tag :=
  filter (fun t => tag_name t = "a" ∧ is_Some (tag_attrs t !! "href")) soup.

(** [link['href']] *)
Definition tag_getitem (link : Tag) (key : string) : PyResult string :=
  match tag_attrs link !! key with
  | Some v => Return v
  | None => Raise (KeyError key)
  end.

(** [urlparse(url).netloc] *)
Definition netloc_of (url : string) : PyResult string :=
  urllib_parse.netloc <$> urllib_parse.urlparse ip_address url "".

(** One pass of the [for] loop over an anchor's [href]: the URL that is
    yielded, [None] when the anchor is passed over, or the exception
    that leaves the generator. *)
Definition link_target (base_url path : string) : PyResult (option string) :=
  resolved ←
    (if startswith path "/" then
       Some <$> urllib_parse.urljoin ip_address base_url path
     else if negb (startswith path "http") then
       Return None
     else Return (Some path));
  match resolved with
  | None => Return None
  | Some path =>
      n ← netloc_of path;
      b ← netloc_of base_url;
      if String.eqb n b then Return (Some path) else Return None
  end.

(** What a generator hands to its consumer: the values it yields, then
    either exhaustion or an exception. *)
Definition Generated : Type := list string * option PyExc.

Fixpoint for_links (base_url : string) (links : list Tag) : Generated :=
  match links with
  | [] => ([], None)
  | link :: rest =>
      match path ← tag_getitem link "href"; link_target base_url path with
      | Raise e => ([], Some e)
      | Return None => for_links base_url rest
      | Return (Some url) =>
          let '(more, exc) := for_links base_url rest in (url :: more, exc)
      end
  end.

Definition get_linked_urls (base_url html : string) : Generated :=
  match BeautifulSoup html with
  | Raise e => ([], Some e)
  | Return soup => for_links base_url (find_all_a_href soup)
  end.

(** *** [Crawler.add_url_to_visit] *)
Definition add_url_to_visit (url : string) (s : State) : State :=
  if bool_decide (url ∉ visited_urls s) && bool_decide (url ∉ urls_to_visit s)
  then set_urls_to_visit ({[url]} ∪ urls_to_visit s) s
  else s.

(** *** [Crawler.crawl]: the [for] loop feeds every yielded URL to
    [add_url_to_visit]; an exception of the generator leaves [crawl]
    after the URLs yielded before it were added *)
Definition consume (g : Generated) : M unit :=
  _ ← modify (fun s => foldl (fun s new_url => add_url_to_visit new_url s) s g.1);
  match g.2 with
  | Some e => raise e
  | None => mret tt
  end.

Definition crawl (url : string) : M unit :=
  html ← download_url url;
  match html with
  | Some html =>
      if truthy html then consume (get_linked_urls url html) else mret tt
  | None => mret tt
  end.

(** What [crawl] may do to the object: the pending set only grows, and
    by URLs that are not visited; the page and the log are free. *)
Definition grows (s s' : State) : Prop :=
  urls s' = urls s ∧ max_urls s' = max_urls s
  ∧ output_file s' = output_file s
  ∧ visited_urls s' = visited_urls s ∧ files s' = files s
  ∧ urls_to_visit s ⊆ urls_to_visit s'
  ∧ (urls_to_visit s' ∖ urls_to_visit s) ## visited_urls s.

(** *** [Crawler.run]: the [while] loop *)

(** [self.urls_to_visit and len(self.visited_urls) < self.max_urls] *)
Definition loop_guard (s : State) : bool :=
  bool_decide (urls_to_visit s ≠ ∅)
  && bool_decide (Z.of_nat (size (visited_urls s)) < max_urls s)%Z.

(** [self.urls_to_visit.pop()]: the element the hash table gives up is
    an input, [url]; [step] below supplies elements of the set only *)
Definition pop (url : string) : M string :=
  fun s =>
    if bool_decide (url ∈ urls_to_visit s)
    then (set_urls_to_visit (urls_to_visit s ∖ {[url]}) s, Return url)
    else (s, Raise (KeyError "pop from an empty set")).

(** The body of the loop, for the popped [url] and the enumeration
    [order] of [save_visited_urls]. [asyncio.sleep(5)] only passes
    time. *)
Definition loop_body (choice : string) (order : list string) : M unit :=
  url ← pop choice;
  _ ← logging INFO ("Crawling: " ++ url);
  try_finally
    (try_except (crawl url)
       (fun e =>
          logging ERROR ("Failed to crawl: " ++ url ++ ". Error: " ++ str_exc e)))
    (_ ← modify (fun s => set_visited_urls ({[url]} ∪ visited_urls s) s);
     save_visited_urls order).

(** The state in which [loop_body] calls [crawl]: [choice] is popped
    and the pass is logged. *)
Definition before_crawl (choice : string) (s : State) : State :=
  ((url ← pop choice; logging INFO ("Crawling: " ++ url)) s).1.

(** The pass over [url] met a fault: the fetch gave [None], or an
    exception left [crawl] (the extractor raised). *)
Definition faulted (url : string) (s : State) : Prop :=
  (download_url url (before_crawl url s)).2 = Return None
  ∨ ∃ e, (crawl url (before_crawl url s)).2 = Raise e.

(** One pass of the loop, for every element [pop] may return and every
    order in which the visited set may be enumerated. *)
Inductive step : State → State → Prop :=
  | step_pass s url order s' :
      loop_guard s = true →
      url ∈ urls_to_visit s →
      order ≡ₚ elements ({[url]} ∪ visited_urls s) →
      loop_body url order s = (s', Return tt) →
      step s s'.

(** The loop has left: the guard is false. *)
Definition finished (s : State) : Prop := loop_guard s = false.

(** A bound on the passes still to come: each pass either visits a new
    URL or pops one that is pending and visited at once. *)
Definition passes_left (s : State) : nat :=
  2 * Z.to_nat (max_urls s - Z.of_nat (size (visited_urls s)))
  + size (urls_to_visit s ∩ visited_urls s).

(** The records of a file, of which [file.write(url + '\n')] ends each with
    a line feed: [contents.split('\n')], without the empty piece that
    follows a final line feed. *)
Definition lines_of (contents : string) : list string :=
  let parts := split "010" contents in
  if String.eqb (List.last parts "") "" then removelast parts else parts.

(** The links [crawl url] hands to [add_url_to_visit] in state [s]: those
    the generator yields before it is exhausted or raises, none when the
    fetch fails or the page is empty. *)
Definition discovered (url : string) (s : State) : list string :=
  match (download_url url s).2 with
  | Return (Some html) =>
      if truthy html then (get_linked_urls url html).1 else []
  | _ => []
  end.

(** The record [run] logs when it starts the pass over [url], and the
    number of such records in a log. *)
Definition crawling (url : string) : Level * string :=
  (INFO, "Crawling: " ++ url).

Definition is_info (record : Level * string) : bool :=
  match record.1 with
  | INFO => true
  | ERROR => false
  end.

Fixpoint crawls (url : string) (lg : list (Level * string)) : nat :=
  match lg with
  | [] => 0
  | record :: rest =>
      (if is_info record && String.eqb record.2 ("Crawling: " ++ url)
       then 1 else 0) + crawls url rest
  end.

(** No square bracket occurs in the string; [urlsplit] raises on no such
    input. *)
Definition bracket_free (url : string) : bool :=
  negb (contains "[" url) && negb (contains "]" url).

(** No line feed in the string. *)
Definition newline_free (url : string) : bool := negb (contains "010" url).

End WithPlatform.

End Crawler.

(** ** Sample platforms

    A static site: [page.goto] finds the page in a table or fails,
    [page.content] gives the page reached, the parser looks the markup up in
    a table of parsed documents. No sample URL has a bracketed host, so
    [ip_address] is never reached; it rejects its argument. *)

Module Sample.

Definition anchor (href : string) : Tag := mkTag "a" {[ "href" := href ]}.

Definition lookup (key : string) (table : list (string * string))
  : option string :=
  snd <$> List.find (fun entry => String.eqb key entry.1) table.

Definition static (site : list (string * string))
    (parsed : list (string * PyResult (list Tag))) : Platform :=
  {| Browser := option string;
     page_goto := fun url _ =>
       match lookup url site with
       | Some html => (Some html, Return tt)
       | None => (None, Raise (OtherError "net::ERR_NAME_NOT_RESOLVED"))
       end;
     page_wait_for_load_state := fun b => (b, Return tt);
     page_content := fun b =>
       match b with
       | Some html => (b, Return html)
       | None => (b, Raise (OtherError "no page"))
       end;
     BeautifulSoup := fun html =>
       match List.find (fun entry => String.eqb html entry.1) parsed with
       | Some entry => entry.2
       | None => Return []
       end;
     ip_address := fun s => Raise (ValueError s) |}.

Definition A : string := "https://example.com/a".
Definition B : string := "https://example.com/b".
Definition C : string := "https://example.com/c".

Definition dq : string := String "034" EmptyString.

Definition a_href (href : string) : string :=
  "<a href=" ++ dq ++ href ++ dq ++ ">link</a>".

(** the page at [A] links to itself *)
Definition self_linking : Platform :=
  static [(A, a_href A)] [(a_href A, Return [anchor A])].

(** the page at [A] links to [B], the page at [B] has no link *)
Definition two_pages : Platform :=
  static [(A, a_href B); (B, "<p>end</p>")]
         [(a_href B, Return [anchor B]); ("<p>end</p>", Return [mkTag "p" ∅])].

(** the page at [A] links to [B] and [C] *)
Definition three_pages : Platform :=
  static [(A, a_href B ++ a_href C)]
         [(a_href B ++ a_href C, Return [anchor B; anchor C])].

(** nothing answers *)
Definition offline : Platform := static [] [].

(** the page at [A] has one anchor, whose host has an unclosed bracket:
    [urlparse] raises [ValueError] on it *)
Definition bad_href_page : Platform :=
  static [(A, a_href "http://[::1")]
         [(a_href "http://[::1", Return [anchor "http://[::1"])].

(** the document of [tests/test_crawler.py::test_link_extraction] *)
Definition sample_html : string :=
  "<html><body>" ++ a_href "/page1" ++ a_href "https://example.com/page2"
  ++ a_href "https://otherdomain.com/page" ++ "</body></html>".

Definition sample_soup : list Tag :=
  [mkTag "html" ∅; mkTag "body" ∅; anchor "/page1";
   anchor "https://example.com/page2"; anchor "https://otherdomain.com/page"].

Definition test_site : Platform :=
  static [] [(sample_html, Return sample_soup);
             ("protocol-relative",
              Return [anchor "//example.com/page"])].

(** a document whose second anchor has an unclosed bracket in its host *)
Definition broken_link : Platform :=
  static [] [("broken",
              Return [anchor "/ok"; anchor "http://[::1"; anchor "/lost"])].

Definition out : string := "visited_links.txt".

(** fresh crawlers on the sample platforms, as [main] builds them *)
Definition self_start : @Crawler.State self_linking :=
  @Crawler.init self_linking [A] 2 out None ∅ [].

Definition two_start : @Crawler.State two_pages :=
  @Crawler.init two_pages [A] 2 out None ∅ [].

Definition three_start : @Crawler.State three_pages :=
  @Crawler.init three_pages [A] 1 out None ∅ [].

Definition offline_start : @Crawler.State offline :=
  @Crawler.init offline [A] 5 out None ∅ [].

Definition bad_href_start : @Crawler.State bad_href_page :=
  @Crawler.init bad_href_page [A] 5 out None ∅ [].

(** a crawler with a negative budget and no seed *)
Definition negative_start : @Crawler.State offline :=
  @Crawler.init offline [] (-1) out None ∅ [].

(** the state a pass leaves *)
Definition after `{P : Platform} (url : string) (order : list string)
    (s : Crawler.State) : Crawler.State :=
  (Crawler.loop_body url order s).1.

End Sample.

Import Crawler.

Section FrontierFacts.

Context `{P : Platform}.

Implicit Types (s : State) (u url : string).

Lemma add_url_to_visit_cases u s :
  ((u ∉ visited_urls s) ∧ (u ∉ urls_to_visit s)
   ∧ (add_url_to_visit u s = set_urls_to_visit ({[u]} ∪ urls_to_visit s) s))
  ∨ (((u ∈ visited_urls s) ∨ (u ∈ urls_to_visit s)) ∧ (add_url_to_visit u s = s)).
Proof.
  unfold add_url_to_visit.
  destruct (decide (u ∈ visited_urls s)) as [Hv|Hv].
  - right. rewrite (bool_decide_eq_false_2 _) by tauto. auto.
  - destruct (decide (u ∈ urls_to_visit s)) as [Hp|Hp].
    + right. rewrite (bool_decide_eq_true_2 _ Hv).
      rewrite (bool_decide_eq_false_2 _) by tauto. auto.
    + left. rewrite (bool_decide_eq_true_2 _ Hv), (bool_decide_eq_true_2 _ Hp).
      auto.
Qed.

Lemma grows_refl s : grows s s.
Proof. unfold grows. set_solver. Qed.

Lemma grows_trans s1 s2 s3 : grows s1 s2 → grows s2 s3 → grows s1 s3.
Proof.
  unfold grows. intros (?&?&?&Hv&?&?&?) (?&?&?&Hv'&?&?&?).
  rewrite Hv in *. repeat split; try congruence; set_solver.
Qed.

Lemma add_url_to_visit_grows u s : grows s (add_url_to_visit u s).
Proof.
  destruct (add_url_to_visit_cases u s) as [(Hv&Hp&->)|(_&->)];
    [|apply grows_refl].
  unfold grows; simpl. set_solver.
Qed.

Lemma feed_grows links s :
  grows s (foldl (fun s new_url => add_url_to_visit new_url s) s links).
Proof.
  revert s. induction links as [|u links IH]; intros s; simpl.
  - apply grows_refl.
  - eapply grows_trans; [apply add_url_to_visit_grows | apply IH].
Qed.

(** [grows] between two states that differ in page and log only *)
Ltac world_only := unfold grows; simpl; repeat split; set_solver.

Lemma download_url_returns url s :
  ∃ s' r, download_url url s = (s', Return r)
          ∧ grows s s' ∧ urls_to_visit s' = urls_to_visit s
          ∧ (r = None ↔ ∃ e, (download_url_try url s).2 = Raise e).
Proof.
  unfold download_url, try_except, download_url_try, on_page, logging, modify.
  cbv [mbind M_bind mret M_ret].
  destruct (page_goto url (page s)) as [b1 [[]|e1]]; simpl.
  2:{ eexists _, None. split; [reflexivity|]. split; [world_only|].
      split; [reflexivity|]. split; eauto. }
  destruct (page_wait_for_load_state b1) as [b2 [[]|e2]]; simpl.
  2:{ eexists _, None. split; [reflexivity|]. split; [world_only|].
      split; [reflexivity|]. split; eauto. }
  destruct (page_content b2) as [b3 [html|e3]]; simpl.
  2:{ eexists _, None. split; [reflexivity|]. split; [world_only|].
      split; [reflexivity|]. split; eauto. }
  eexists _, (Some html). split; [reflexivity|]. split; [world_only|].
  split; [reflexivity|]. split; [discriminate|]. intros [e He]; discriminate.
Qed.

Lemma consume_grows g s : grows s (consume g s).1.
Proof.
  unfold consume, modify, raise. cbv [mbind M_bind mret M_ret].
  destruct g as [links [e|]]; simpl; apply feed_grows.
Qed.

Lemma crawl_grows url s : grows s (crawl url s).1.
Proof.
  unfold crawl. cbv [mbind M_bind].
  destruct (download_url_returns url s) as (s' & r & -> & Hg & _).
  destruct r as [html|]; simpl; [|exact Hg].
  destruct (PyStr.truthy html); simpl; [|exact Hg].
  eapply grows_trans; [exact Hg | apply consume_grows].
Qed.

(** What one pass of the loop does to the object and to the file. *)
Lemma loop_body_spec url order s :
  url ∈ urls_to_visit s →
  ∃ s', loop_body url order s = (s', Return tt)
    ∧ urls s' = urls s ∧ max_urls s' = max_urls s
    ∧ output_file s' = output_file s
    ∧ visited_urls s' = {[url]} ∪ visited_urls s
    ∧ files s' = <[output_file s :=
                    default "" (files s !! output_file s) ++ write_lines order]>
                   (files s)
    ∧ urls_to_visit s ∖ {[url]} ⊆ urls_to_visit s'
    ∧ (urls_to_visit s' ∖ (urls_to_visit s ∖ {[url]})) ## visited_urls s.
Proof.
  intros Hin. unfold loop_body, pop.
  cbv [mbind M_bind]. rewrite (bool_decide_eq_true_2 _ Hin).
  unfold logging at 1. unfold modify at 1. cbv beta iota.
  set (s1 := set_log _ _).
  unfold try_finally, try_except.
  pose proof (crawl_grows url s1) as Hg.
  destruct (crawl url s1) as [s2 [[]|e]]; simpl in Hg;
    unfold logging, modify, save_visited_urls; simpl;
    (eexists; split; [reflexivity|]);
    destruct Hg as (Hu & Hm & Ho & Hv & Hf & Hsub & Hdis);
    subst s1; simpl in *; rewrite Hu, Hm, Ho, Hv, Hf;
    repeat split; try reflexivity; set_solver.
Qed.

(** The body of the loop of [crawl], in closed form: the yielded URLs that
    are neither visited nor pending join the pending set; nothing else
    changes. *)
Lemma feed_closed_form links s :
  foldl (fun s new_url => add_url_to_visit new_url s) s links
  = set_urls_to_visit
      (urls_to_visit s ∪ (list_to_set links ∖ visited_urls s)) s.
Proof.
  revert s. induction links as [|u links IH]; intros s; simpl.
  - destruct s; unfold set_urls_to_visit; simpl. f_equal. set_solver.
  - rewrite IH.
    destruct (add_url_to_visit_cases u s) as [(Hv&Hp&->)|(Hor&->)];
      destruct s; unfold set_urls_to_visit; simpl in *; f_equal; set_solver.
Qed.

(** C3. [add_url_to_visit u] puts [u] into the pending set exactly when
    [u] is in neither set, and otherwise changes nothing; a second call
    with the same [u] changes nothing more, so after two calls [u] is
    listed once among the pending URLs (not at all when it was visited
    and not pending: then both calls are no-ops); on a visited [u] the
    call leaves the state as it is. *)
Theorem add_url_to_visit_offer u s :
  (((u ∉ urls_to_visit s) ∧ (u ∉ visited_urls s)) →
     add_url_to_visit u s = set_urls_to_visit ({[u]} ∪ urls_to_visit s) s)
  ∧ (¬ ((u ∉ urls_to_visit s) ∧ (u ∉ visited_urls s)) →
     add_url_to_visit u s = s)
  ∧ (add_url_to_visit u (add_url_to_visit u s) = add_url_to_visit u s)
  ∧ (count_occ String.string_dec
       (elements (urls_to_visit (add_url_to_visit u (add_url_to_visit u s)))) u
     = if bool_decide ((u ∈ visited_urls s) ∧ (u ∉ urls_to_visit s))
       then 0 else 1)
  ∧ ((u ∈ visited_urls s) → add_url_to_visit u s = s).
Proof.
  assert (Hidem : add_url_to_visit u (add_url_to_visit u s)
                  = add_url_to_visit u s).
  { destruct (add_url_to_visit_cases u s) as [(Hv&Hp&->)|(Hor&->)].
    - destruct (add_url_to_visit_cases
                  u (set_urls_to_visit ({[u]} ∪ urls_to_visit s) s))
        as [(_&Hp'&_)|(_&->)]; [|reflexivity].
      simpl in Hp'. set_solver.
    - destruct (add_url_to_visit_cases u s) as [(Hv&Hp&_)|(_&->)];
        [tauto | reflexivity]. }
  repeat split.
  - intros [Hp Hv].
    destruct (add_url_to_visit_cases u s) as [(_&_&->)|(Hor&_)];
      [reflexivity | tauto].
  - intros Hn.
    destruct (add_url_to_visit_cases u s) as [(Hv&Hp&_)|(_&->)];
      [tauto | reflexivity].
  - exact Hidem.
  - rewrite Hidem.
    destruct (add_url_to_visit_cases u s) as [(Hv&Hp&->)|(Hor&->)]; simpl.
    + rewrite (bool_decide_eq_false_2 _) by tauto.
      apply NoDup_count_occ'; [apply NoDup_ListNoDup, NoDup_elements|].
      apply list_elem_of_In, elem_of_elements. set_solver.
    + case_bool_decide as Hc.
      * apply count_occ_not_In. rewrite <- list_elem_of_In, elem_of_elements.
        tauto.
      * apply NoDup_count_occ'; [apply NoDup_ListNoDup, NoDup_elements|].
        apply list_elem_of_In, elem_of_elements.
        destruct (decide (u ∈ urls_to_visit s)); tauto.
  - intros Hv.
    destruct (add_url_to_visit_cases u s) as [(Hv'&_&_)|(_&->)];
      [tauto | reflexivity].
Qed.

(** C10. [add_url_to_visit u] leaves the visited set as it is and removes
    nothing from the pending set, which can only gain [u]; no other
    attribute, file or log record changes. *)
Theorem add_url_to_visit_frame u s :
  visited_urls (add_url_to_visit u s) = visited_urls s
  ∧ urls_to_visit s ⊆ urls_to_visit (add_url_to_visit u s)
  ∧ urls_to_visit (add_url_to_visit u s) ⊆ {[u]} ∪ urls_to_visit s
  ∧ add_url_to_visit u s
    = set_urls_to_visit (urls_to_visit (add_url_to_visit u s)) s.
Proof.
  destruct (add_url_to_visit_cases u s) as [(Hv&Hp&->)|(Hor&->)]; simpl.
  - repeat split; try reflexivity; set_solver.
  - repeat split; try set_solver. destruct s; reflexivity.
Qed.

(** C7. [download_url] returns for every URL and every state of the
    page: when a Playwright call raises, the exception is caught and the
    result is [None]; otherwise it is the content of the page. The
    crawler sees [Some html] or [None], never an exception. *)
Theorem download_url_never_raises url s :
  ∃ s' r, download_url url s = (s', Return r)
          ∧ (r = None ↔ ∃ e, (download_url_try url s).2 = Raise e)
          ∧ (∀ html, r = Some html ↔
                     (download_url_try url s).2 = Return (Some html)).
Proof.
  unfold download_url, try_except, logging, modify.
  cbv [mbind M_bind mret M_ret].
  destruct (download_url_try url s) as [s1 [r|e]] eqn:Htry; simpl.
  - assert (∃ html, r = Some html) as [html ->].
    { revert Htry. unfold download_url_try, on_page.
      cbv [mbind M_bind mret M_ret].
      destruct (page_goto url (page s)) as [b1 [[]|e1]]; simpl; [|discriminate].
      destruct (page_wait_for_load_state b1) as [b2 [[]|e2]]; simpl;
        [|discriminate].
      destruct (page_content b2) as [b3 [html|e3]]; simpl; [|discriminate].
      intros [= <- <-]. eauto. }
    eexists _, _. split; [reflexivity|]. split.
    + split; [discriminate | intros [e He]; discriminate].
    + intros html'. split; congruence.
  - eexists _, None. split; [reflexivity|]. split.
    + split; eauto.
    + intros html'. split; discriminate.
Qed.

End FrontierFacts.

Section LoopFacts.

Context `{P : Platform}.

Implicit Types (s : State) (u url : string).

(** projections of explicit states *)
Ltac fields :=
  unfold init, set_urls_to_visit, set_visited_urls, set_page, set_files,
    set_log;
  cbn [urls max_urls output_file visited_urls urls_to_visit page files log].

Lemma loop_guard_iff s :
  loop_guard s = true
  ↔ (urls_to_visit s ≠ ∅)
    ∧ (Z.of_nat (size (visited_urls s)) < max_urls s)%Z.
Proof.
  unfold loop_guard. rewrite andb_true_iff, !bool_decide_eq_true. tauto.
Qed.

(** While the guard holds a pass is possible: the pending set has an
    element to pop. *)
Lemma step_progress s : loop_guard s = true → ∃ s', step s s'.
Proof.
  intros Hg. pose proof Hg as [Hne _]%loop_guard_iff.
  apply set_choose_L in Hne as [url Hin].
  destruct (loop_body_spec url (elements ({[url]} ∪ visited_urls s)) s Hin)
    as (s' & Hbody & _).
  exists s'. eapply step_pass; eauto.
Qed.

Lemma step_guard s s' : step s s' → loop_guard s = true.
Proof. by destruct 1. Qed.

Lemma step_visited s s' :
  step s s' →
  max_urls s' = max_urls s
  ∧ ∃ url, (url ∈ urls_to_visit s)
           ∧ (visited_urls s' = {[url]} ∪ visited_urls s)
           ∧ (urls_to_visit s ∖ {[url]} ⊆ urls_to_visit s')
           ∧ ((urls_to_visit s' ∖ (urls_to_visit s ∖ {[url]}))
              ## visited_urls s).
Proof.
  destruct 1 as [s url order s' Hg Hin Hperm Hbody].
  destruct (loop_body_spec url order s Hin)
    as (s'' & Hbody' & _ & Hm & _ & Hv & _ & Hsub & Hdis).
  rewrite Hbody in Hbody'. injection Hbody' as <-.
  split; [exact Hm|]. exists url. auto.
Qed.

Lemma step_budget s s' :
  step s s' →
  (Z.of_nat (size (visited_urls s')) ≤ max_urls s')%Z.
Proof.
  intros Hstep. pose proof (step_guard _ _ Hstep) as [_ Hlt]%loop_guard_iff.
  destruct (step_visited _ _ Hstep) as (-> & url & _ & -> & _).
  pose proof (size_union_alt {[url]} (visited_urls s)) as Hsz.
  rewrite size_singleton in Hsz.
  assert (Hle : (size (visited_urls s ∖ {[url]}) ≤ size (visited_urls s))%nat)
    by (apply subseteq_size; set_solver).
  lia.
Qed.

(** Every pass brings the loop nearer to its end. *)
Lemma step_passes_left s s' : step s s' → (passes_left s' < passes_left s)%nat.
Proof.
  intros Hstep. pose proof (step_guard _ _ Hstep) as [_ Hlt]%loop_guard_iff.
  destruct (step_visited _ _ Hstep)
    as (Hm & url & Hin & Hv & Hsub & Hdis).
  unfold passes_left. rewrite Hm, Hv.
  generalize dependent (visited_urls s). intros V Hlt Hv Hdis.
  generalize dependent (urls_to_visit s). intros T Hin Hsub Hdis.
  generalize dependent (urls_to_visit s'). intros T' Hsub Hdis.
  destruct (decide (url ∈ V)) as [HinV|HninV].
  - assert (HV : {[url]} ∪ V = V) by set_solver. rewrite HV.
    assert (Hsubset : T' ∩ V ⊆ (T ∩ V) ∖ {[url]}).
    { intros x [HxT' HxV]%elem_of_intersection.
      destruct (decide (x ∈ T ∖ {[url]})) as [Hx|Hx]; [set_solver|].
      exfalso. apply (Hdis x); [set_solver | exact HxV]. }
    apply subseteq_size in Hsubset.
    rewrite (size_difference (C:=gset string) (T ∩ V) {[url]}) in Hsubset
      by set_solver.
    rewrite (size_singleton (C:=gset string)) in Hsubset.
    assert (size (T ∩ V) ≠ 0)
      by (apply (size_non_empty_iff (C:=gset string)); set_solver).
    lia.
  - assert (Hsubset : T' ∩ ({[url]} ∪ V) ⊆ {[url]} ∪ (T ∩ V)).
    { intros x [HxT' HxV]%elem_of_intersection.
      destruct (decide (x = url)) as [->|Hne]; [set_solver|].
      destruct (decide (x ∈ T ∖ {[url]})) as [Hx|Hx]; [set_solver|].
      exfalso. apply (Hdis x); set_solver. }
    apply subseteq_size in Hsubset.
    rewrite (size_union (C:=gset string) {[url]} (T ∩ V)) in Hsubset
      by set_solver.
    rewrite (size_union (C:=gset string) {[url]} V) by set_solver.
    rewrite (size_singleton (C:=gset string)) in *. lia.
Qed.

Lemma nsteps_passes_left n s s' :
  nsteps step n s s' → (n + passes_left s' ≤ passes_left s)%nat.
Proof.
  induction 1 as [|n s1 s2 s3 Hstep _ IH]; [lia|].
  apply step_passes_left in Hstep. lia.
Qed.

Lemma rtc_step_max_urls s s' : rtc step s s' → max_urls s' = max_urls s.
Proof.
  induction 1 as [|s1 s2 s3 Hstep _ IH]; [reflexivity|].
  apply step_visited in Hstep as [Hm _]. congruence.
Qed.

Lemma rtc_step_passes_left s s' :
  rtc step s s' → (passes_left s' ≤ passes_left s)%nat.
Proof.
  induction 1 as [|s1 s2 s3 Hstep _ IH]; [lia|].
  apply step_passes_left in Hstep. lia.
Qed.

(** C2, amended. For a budget [max_urls >= 0], in every state the loop
    reaches the visited set has at most [max_urls] elements; the loop
    goes on exactly when the pending set is not empty and fewer than
    [max_urls] URLs are visited, a pass is then always possible, and no
    run has more than [2 * max_urls] passes. *)
Theorem budget_respected seeds max out b fs lg s :
  (0 ≤ max)%Z →
  rtc step (init seeds max out b fs lg) s →
  (Z.of_nat (size (visited_urls s)) ≤ max)%Z
  ∧ (loop_guard s = true
     ↔ (urls_to_visit s ≠ ∅) ∧ (Z.of_nat (size (visited_urls s)) < max)%Z)
  ∧ ((∃ s', step s s') ↔ loop_guard s = true)
  ∧ (∀ n s', nsteps step n s s' → (n ≤ passes_left s)%nat)
  ∧ (passes_left s ≤ 2 * Z.to_nat max)%nat.
Proof.
  intros Hmax Hrun.
  pose proof (rtc_step_max_urls _ _ Hrun) as Hm. simpl in Hm.
  split; [|split; [|split; [|split]]].
  - apply rtc_inv_r in Hrun as [Heq|(s1 & _ & Hstep)].
    + subst s. fields. rewrite (size_empty (C:=gset string)). lia.
    + rewrite <- Hm. exact (step_budget _ _ Hstep).
  - rewrite loop_guard_iff, Hm. tauto.
  - split; [intros [s' Hstep]; by eapply step_guard | apply step_progress].
  - intros n s' Hn. apply nsteps_passes_left in Hn. lia.
  - apply rtc_step_passes_left in Hrun. revert Hrun.
    unfold passes_left at 2. fields.
    rewrite (size_empty (C:=gset string)).
    assert (Hcap : list_to_set seeds ∩ (∅ : gset string) = ∅) by set_solver.
    rewrite Hcap, (size_empty (C:=gset string)). lia.
Qed.




End LoopFacts.

Section ExtractorFacts.

Context `{P : Platform}.

Import PyStr.

Implicit Types (base_url : string) (link : Tag) (soup : list Tag).

Lemma find_all_a_href_app soup1 soup2 :
  find_all_a_href (soup1 ++ soup2)%list
  = (find_all_a_href soup1 ++ find_all_a_href soup2)%list.
Proof. apply filter_app. Qed.

(** Every tag [find_all] returns has an [href]: [link['href']] does not
    raise in the loop. *)
Lemma find_all_a_href_getitem soup link :
  link ∈ find_all_a_href soup → ∃ h, tag_getitem link "href" = Return h.
Proof.
  intros [[_ [h Hh]] _]%list_elem_of_filter.
  exists h. unfold tag_getitem. by rewrite Hh.
Qed.

(** A generator that runs through [front] and then through [back]. *)
Lemma for_links_app base_url (front back : list Tag) :
  for_links base_url (front ++ back)%list
  = match for_links base_url front with
    | (yielded, Some e) => (yielded, Some e)
    | (yielded, None) =>
        let '(more, exc) := for_links base_url back in
        ((yielded ++ more)%list, exc)
    end.
Proof.
  induction front as [|link front IH]; simpl.
  - by destruct (for_links base_url back).
  - destruct (tag_getitem link "href" ≫= _)
      as [[url|]|e]; [|exact IH|reflexivity].
    rewrite IH. destruct (for_links base_url front) as [yielded [e|]];
      [reflexivity|].
    by destruct (for_links base_url back).
Qed.

Lemma for_links_skip base_url (front middle back : list Tag) :
  for_links base_url middle = ([], None) →
  for_links base_url (front ++ middle ++ back)%list
  = for_links base_url (front ++ back)%list.
Proof.
  intros Hmid. rewrite !for_links_app, Hmid.
  destruct (for_links base_url front) as [yielded [e|]]; [reflexivity|].
  by destruct (for_links base_url back).
Qed.

Lemma link_target_empty base_url : link_target base_url "" = Return None.
Proof. reflexivity. Qed.

Lemma link_target_javascript base_url :
  link_target base_url "javascript:void(0)" = Return None.
Proof. reflexivity. Qed.

Lemma for_links_degenerate base_url link :
  (tag_attrs link !! "href" = None)
  ∨ (tag_attrs link !! "href" = Some "")
  ∨ (tag_attrs link !! "href" = Some "javascript:void(0)") →
  for_links base_url (find_all_a_href [link]) = ([], None).
Proof.
  intros Hhref. unfold find_all_a_href. rewrite filter_cons, filter_nil.
  case_decide as Hkeep; [|reflexivity].
  destruct Hkeep as [_ [h Hh]]. simpl. unfold tag_getitem. rewrite Hh.
  destruct Hhref as [Hn|[Hn|Hn]]; rewrite Hn in Hh; simplify_eq; reflexivity.
Qed.

(** C9. An anchor whose [href] is empty or [javascript:void(0)], or that
    has no [href], contributes nothing to the extraction, neither a URL
    nor an exception: the generator behaves as if the anchor were not in
    the document. An anchor without [href] is not even returned by
    [find_all]. *)
Theorem degenerate_anchors base_url link :
  (tag_attrs link !! "href" = None)
  ∨ (tag_attrs link !! "href" = Some "")
  ∨ (tag_attrs link !! "href" = Some "javascript:void(0)") →
  (∀ html html' (front back : list Tag),
      BeautifulSoup html = Return (front ++ link :: back)%list →
      BeautifulSoup html' = Return (front ++ back)%list →
      get_linked_urls base_url html = get_linked_urls base_url html')
  ∧ (∀ html, BeautifulSoup html = Return [link] →
             get_linked_urls base_url html = ([], None))
  ∧ (tag_attrs link !! "href" = None → find_all_a_href [link] = [])
  ∧ link_target base_url "" = Return None
  ∧ link_target base_url "javascript:void(0)" = Return None.
Proof.
  intros Hhref. pose proof (for_links_degenerate base_url link Hhref) as Hd.
  split; [|split; [|split; [|split]]].
  - intros html html' front back Hsoup Hsoup'.
    unfold get_linked_urls. rewrite Hsoup, Hsoup'.
    change (link :: back) with ([link] ++ back)%list.
    rewrite !find_all_a_href_app. by apply for_links_skip.
  - intros html Hsoup. unfold get_linked_urls. by rewrite Hsoup.
  - intros Hnone. unfold find_all_a_href. rewrite filter_cons, filter_nil.
    case_decide as Hkeep; [|reflexivity].
    destruct Hkeep as [_ [h Hh]]. congruence.
  - apply link_target_empty.
  - apply link_target_javascript.
Qed.

Lemma startswith_app p rest : startswith (p ++ rest) p = true.
Proof.
  unfold startswith. induction p as [|c p IH]; simpl.
  - by destruct rest.
  - destruct (ascii_dec c c); [exact IH | congruence].
Qed.

(** C4, amended. An [href] that starts with [/] — a protocol-relative
    [//host/path] among them — is resolved against the base URL by
    [urljoin]; an [href] that starts neither with [/] nor with [http] is
    dropped, which covers [mailto:], [javascript:] and fragment-only
    references; any other [href] is taken as it is. The candidate is
    yielded only if [urlparse] gives it the [netloc] of the base URL. For
    the base [https://example.com] and the three anchors of the test
    document, exactly the two URLs on [example.com] are yielded. *)
Theorem link_filter base_url :
  (∀ h, startswith h "/" = true →
        link_target base_url h
        = (u ← urllib_parse.urljoin ip_address base_url h;
           n ← netloc_of u;
           b ← netloc_of base_url;
           if String.eqb n b then Return (Some u) else Return None))
  ∧ (∀ h, startswith h "/" = false → startswith h "http" = false →
          link_target base_url h = Return None)
  ∧ (∀ h, startswith h "/" = false → startswith h "http" = true →
          link_target base_url h
          = (n ← netloc_of h;
             b ← netloc_of base_url;
             if String.eqb n b then Return (Some h) else Return None))
  ∧ (∀ h u, link_target base_url h = Return (Some u) →
            ∃ n, netloc_of u = Return n ∧ netloc_of base_url = Return n)
  ∧ (∀ rest, link_target base_url ("mailto:" ++ rest) = Return None
             ∧ link_target base_url ("javascript:" ++ rest) = Return None
             ∧ link_target base_url ("#" ++ rest) = Return None)
  ∧ (∀ html soup,
        BeautifulSoup html = Return soup →
        (fun link => tag_attrs link !! "href") <$> find_all_a_href soup
        = [Some "/page1"; Some "https://example.com/page2";
           Some "https://otherdomain.com/page"] →
        get_linked_urls "https://example.com" html
        = (["https://example.com/page1"; "https://example.com/page2"], None)).
Proof.
  split; [|split; [|split; [|split; [|split]]]].
  - intros h Hs. unfold link_target. rewrite Hs.
    destruct (urllib_parse.urljoin ip_address base_url h); reflexivity.
  - intros h Hs Hh. unfold link_target. rewrite Hs, Hh. reflexivity.
  - intros h Hs Hh. unfold link_target. rewrite Hs, Hh. reflexivity.
  - intros h u. unfold link_target.
    destruct (if startswith h "/" then _ else _) as [[c|]|e]; simpl;
      [|discriminate..].
    destruct (netloc_of c) as [n|e] eqn:Hn; simpl; [|discriminate].
    destruct (netloc_of base_url) as [b|e]; simpl; [|discriminate].
    destruct (String.eqb n b) eqn:Heq; [|discriminate].
    intros [= <-]. apply String.eqb_eq in Heq as ->. eauto.
  - intros rest. repeat split; reflexivity.
  - intros html soup Hsoup Hhrefs. unfold get_linked_urls. rewrite Hsoup.
    destruct (find_all_a_href soup) as [|l1 [|l2 [|l3 [|]]]];
      try discriminate.
    injection Hhrefs as H1 H2 H3.
    unfold for_links, tag_getitem. rewrite H1, H2, H3.
    vm_compute. reflexivity.
Qed.

End ExtractorFacts.

(** ** The claims on the sample platforms *)

Section Scenarios.

Import Sample.

(** a pass on a closed state, checked by evaluation *)
Ltac pass url order :=
  apply (step_pass _ url order);
  [ vm_compute; reflexivity
  | apply (bool_decide_unpack _); vm_compute; exact I
  | vm_compute; solve [reflexivity | apply perm_swap]
  | vm_compute; reflexivity ].

Lemma step_self_start_inv s1 :
  step self_start s1 → s1 = after A [A] self_start.
Proof.
  intros Hstep. inversion Hstep as [s url order s' _ Hin Hperm Hbody]; subst.
  assert (url = A) as ->.
  { revert Hin. unfold self_start, init; simpl. set_solver. }
  assert (order = [A]) as ->.
  { apply Permutation_singleton_r. rewrite Hperm.
    vm_compute. reflexivity. }
  unfold after. by rewrite Hbody.
Qed.

(** C1, the defect. The page of the only seed links to itself. During the
    pass over it the URL is neither pending (it was popped) nor visited
    (it is marked after [crawl]), so [add_url_to_visit] takes it back;
    after the pass it is pending and visited at once, and the next pass
    crawls it a second time. *)
Theorem self_link_pending_and_visited :
  (∀ s1, step self_start s1 →
         (A ∈ urls_to_visit s1 ∩ visited_urls s1) ∧ loop_guard s1 = true)
  ∧ ∃ s1 s2, step self_start s1 ∧ step s1 s2
             ∧ log s2 = [(INFO, "Crawling: " ++ A); (INFO, "Crawling: " ++ A)]
             ∧ finished s2.
Proof.
  split.
  - intros s1 ->%step_self_start_inv. split.
    + apply (bool_decide_unpack _). vm_compute. exact I.
    + vm_compute. reflexivity.
  - exists (after A [A] self_start), (after A [A] (after A [A] self_start)).
    split; [pass A [A]|]. split; [pass A [A]|].
    split; vm_compute; reflexivity.
Qed.

(** C6, the defect. Every pass appends the whole visited set: after the
    passes over [A] and over [B] the file holds the line of [A] twice. *)
Theorem visited_lines_repeated :
  ∃ s1 s2 contents,
    step two_start s1 ∧ step s1 s2 ∧ finished s2
    ∧ files s2 !! out = Some contents
    ∧ lines_of contents = [A; A; B]
    ∧ ¬ NoDup (lines_of contents).
Proof.
  exists (after A [A] two_start), (after B [A; B] (after A [A] two_start)).
  eexists. split; [pass A [A]|]. split; [pass B [A; B]|].
  split; [vm_compute; reflexivity|].
  split; [vm_compute; reflexivity|].
  split; [vm_compute; reflexivity|].
  vm_compute. intros Hnd. apply NoDup_cons_1_1 in Hnd. apply Hnd. left.
Qed.

(** C2 as stated fails: a crawler built with [max_urls = -1] has an empty
    visited set, whose size, 0, exceeds the budget, in a state the loop
    has already left. *)
Lemma negative_budget_exceeded :
  rtc step negative_start negative_start
  ∧ finished negative_start
  ∧ ¬ (Z.of_nat (size (visited_urls negative_start))
       ≤ max_urls negative_start)%Z.
Proof.
  split; [apply rtc_refl|]. split; [vm_compute; reflexivity|].
  vm_compute. intros H. apply H. reflexivity.
Qed.

(** C4 as stated fails: a protocol-relative [href] does not start with
    [http], and it is not dropped: it starts with [/], is resolved
    against the base URL and, being on the same host, is yielded. *)
Lemma protocol_relative_yielded :
  PyStr.startswith "//example.com/page" "http" = false
  ∧ @link_target test_site "https://example.com" "//example.com/page"
    = Return (Some "https://example.com/page")
  ∧ @get_linked_urls test_site "https://example.com" "protocol-relative"
    = (["https://example.com/page"], None).
Proof. repeat split; vm_compute; reflexivity. Qed.

Lemma budget_respected_witness :
  (0 ≤ 2)%Z
  ∧ rtc step two_start (after A [A] two_start)
  ∧ (Z.of_nat (size (visited_urls (after A [A] two_start))) ≤ 2)%Z.
Proof.
  assert (Hrun : rtc step two_start (after A [A] two_start))
    by (apply rtc_once; pass A [A]).
  split; [lia|]. split; [exact Hrun|].
  apply (@budget_respected two_pages [A] 2 out None ∅ []
           (after A [A] two_start));
    [lia | exact Hrun].
Defined.


Lemma degenerate_anchors_witness :
  @get_linked_urls (static [] [("x", Return [anchor ""])])
    "https://example.com" "x"
  = ([], None).
Proof.
  apply (@degenerate_anchors (static [] [("x", Return [anchor ""])])
           "https://example.com" (anchor ""));
    [right; left; vm_compute; reflexivity | vm_compute; reflexivity].
Defined.

Lemma link_filter_witness :
  @get_linked_urls test_site "https://example.com" sample_html
  = (["https://example.com/page1"; "https://example.com/page2"], None).
Proof.
  apply (@link_filter test_site "https://example.com") with (soup := sample_soup);
    vm_compute; reflexivity.
Defined.

Lemma add_url_to_visit_offer_witness :
  add_url_to_visit A (after A [A] offline_start) = after A [A] offline_start.
Proof.
  apply (@add_url_to_visit_offer offline A (after A [A] offline_start)).
  apply (bool_decide_unpack _). vm_compute. exact I.
Defined.

End Scenarios.

(** ** The pass of the loop in closed form *)

Section PassFacts.

Context `{P : Platform}.

Implicit Types (s : State) (u url : string).

Lemma set_urls_to_visit_world t b lg s :
  set_urls_to_visit t (set_log lg (set_page b s))
  = set_log lg (set_page b (set_urls_to_visit t s)).
Proof. reflexivity. Qed.

(** [download_url] writes to the page and the log only; the log gains one
    [ERROR] record when the result is [None] and nothing otherwise. *)
Lemma download_url_world url s :
  ∃ b r lg,
    download_url url s = (set_log (log s ++ lg) (set_page b s), Return r)
    ∧ match r with
      | Some _ => lg = []
      | None =>
          ∃ e, lg = [(ERROR,
                      ("Error downloading " ++ url ++ ": " ++ str_exc e)%string)]
      end.
Proof.
  unfold download_url, try_except, download_url_try, on_page, logging, modify.
  cbv [mbind M_bind mret M_ret].
  destruct (page_goto url (page s)) as [b1 [[]|e1]]; simpl.
  2:{ eexists b1, None, _. split; [reflexivity|]. eauto. }
  destruct (page_wait_for_load_state b1) as [b2 [[]|e2]]; simpl.
  2:{ eexists b2, None, _. split; [reflexivity|]. eauto. }
  destruct (page_content b2) as [b3 [html|e3]]; simpl.
  2:{ eexists b3, None, _. split; [reflexivity|]. eauto. }
  exists b3, (Some html), []. split; [|reflexivity].
  unfold set_log, set_page; simpl. by rewrite app_nil_r.
Qed.

(** [crawl] in closed form: the links of [discovered] that are not visited
    join the pending set; beyond that only the page and the log change. *)
Lemma crawl_closed_form url s :
  ∃ b lg r,
    crawl url s
    = (set_log (log s ++ lg)
         (set_page b
            (set_urls_to_visit
               (urls_to_visit s
                ∪ (list_to_set (discovered url s) ∖ visited_urls s)) s)), r)
    ∧ Forall (fun record => is_info record = false) lg.
Proof.
  unfold crawl, discovered. cbv [mbind M_bind].
  destruct (download_url_world url s) as (b & r & lg & -> & Hlg). simpl.
  assert (Hnoop :
    set_log (log s ++ lg) (set_page b s)
    = set_log (log s ++ lg)
        (set_page b (set_urls_to_visit (urls_to_visit s ∪ (∅ ∖ visited_urls s)) s))).
  { unfold set_log, set_page, set_urls_to_visit; simpl. do 2 f_equal.
    set_solver. }
  assert (Hrec : Forall (fun record => is_info record = false) lg).
  { destruct r as [html|]; [subst lg; constructor|].
    destruct Hlg as [e ->]. by repeat constructor. }
  destruct r as [html|].
  - destruct (PyStr.truthy html).
    + unfold consume, modify, raise. cbv [mbind M_bind mret M_ret].
      rewrite feed_closed_form, set_urls_to_visit_world. simpl.
      destruct (get_linked_urls url html) as [ys [e|]]; simpl; eauto.
    + exists b, lg, (Return tt). rewrite list_to_set_nil. split; [|exact Hrec].
      by rewrite <- Hnoop.
  - exists b, lg, (Return tt). rewrite list_to_set_nil. split; [|exact Hrec].
    by rewrite <- Hnoop.
Qed.

(** One pass in closed form. *)
Lemma loop_body_closed_form url order s :
  url ∈ urls_to_visit s →
  ∃ b lg,
    loop_body url order s
    = (mkState (urls s) (max_urls s) (output_file s)
         ({[url]} ∪ visited_urls s)
         ((urls_to_visit s ∖ {[url]})
          ∪ (list_to_set (discovered url (before_crawl url s)) ∖ visited_urls s))
         b
         (<[output_file s :=
              default "" (files s !! output_file s) ++ write_lines order]>
            (files s))
         (log s ++ crawling url :: lg),
       Return tt)
    ∧ Forall (fun record => is_info record = false) lg.
Proof.
  intros Hin. unfold loop_body, before_crawl, pop.
  cbv [mbind M_bind]. rewrite (bool_decide_eq_true_2 _ Hin).
  unfold logging at 1 2. unfold modify at 1 2. cbv beta iota. simpl fst.
  set (s1 := set_log _ _).
  unfold try_finally, try_except.
  destruct (crawl_closed_form url s1) as (b & lg & r & -> & Hlg).
  destruct r as [[]|e]; unfold logging, modify, save_visited_urls; simpl.
  - exists b, lg. split; [|exact Hlg].
    rewrite <- app_assoc. reflexivity.
  - eexists b, (lg ++ [_])%list. split.
    + rewrite <- !app_assoc. reflexivity.
    + apply Forall_app. split; [exact Hlg|]. by repeat constructor.
Qed.

End PassFacts.

(** ** More on the frontier, [crawl] and [download_url] *)

Section CrawlFacts.

Context `{P : Platform}.

Implicit Types (s : State) (u v url : string).

(** X1. Two URLs may be offered in either order. *)
Theorem add_url_to_visit_comm u v s :
  add_url_to_visit u (add_url_to_visit v s)
  = add_url_to_visit v (add_url_to_visit u s).
Proof.
  change (foldl (fun s new_url => add_url_to_visit new_url s) s [v; u]
          = foldl (fun s new_url => add_url_to_visit new_url s) s [u; v]).
  rewrite !feed_closed_form. f_equal. set_solver.
Qed.

(** X2. The [for] loop of [crawl] depends on the set of the yielded URLs only:
    their order and their repetitions leave no trace. *)
Theorem consume_set_only (yielded yielded' : list string) exc s :
  (list_to_set yielded : gset string) = list_to_set yielded' →
  consume (yielded, exc) s = consume (yielded', exc) s.
Proof.
  intros Hset. unfold consume, modify. cbv [mbind M_bind]. simpl.
  by rewrite !feed_closed_form, Hset.
Qed.

(** X3. [crawl] marks nothing visited and writes no file; the pending set gains
    the discovered links that are not visited, and nothing at all when the
    fetch fails, in which case [crawl] returns normally. *)
Theorem crawl_effect url s :
  visited_urls (crawl url s).1 = visited_urls s
  ∧ files (crawl url s).1 = files s
  ∧ max_urls (crawl url s).1 = max_urls s
  ∧ urls_to_visit (crawl url s).1
    = urls_to_visit s ∪ (list_to_set (discovered url s) ∖ visited_urls s)
  ∧ ((download_url url s).2 = Return None →
     urls_to_visit (crawl url s).1 = urls_to_visit s
     ∧ (crawl url s).2 = Return tt).
Proof.
  destruct (crawl_closed_form url s) as (b & lg & r & Hcrawl & _).
  rewrite Hcrawl. simpl. do 4 (split; [reflexivity|]).
  intros Hnone. split.
  - unfold discovered. rewrite Hnone. set_solver.
  - revert Hcrawl. unfold crawl. cbv [mbind M_bind mret M_ret].
    destruct (download_url url s) as [s1 r1]. simpl in Hnone. subst r1.
    simpl. by intros [= _ <-].
Qed.

(** X4. [download_url] touches the page and the log only: a failed fetch
    appends one [ERROR] record that names the URL, a successful one
    appends nothing. *)
Theorem download_url_effect url s :
  ∃ b r lg,
    download_url url s = (set_log (log s ++ lg) (set_page b s), Return r)
    ∧ (r = None →
       ∃ e, lg = [(ERROR,
                   ("Error downloading " ++ url ++ ": " ++ str_exc e)%string)])
    ∧ (r ≠ None → lg = []).
Proof.
  destruct (download_url_world url s) as (b & r & lg & Hd & Hlg).
  exists b, r, lg. split; [exact Hd|]. destruct r as [html|]; split.
  - discriminate.
  - intros _. exact Hlg.
  - intros _. exact Hlg.
  - congruence.
Qed.

End CrawlFacts.

(** ** Strings *)

Lemma str_app_cons (c : ascii) (a b : string) :
  String c a ++ b = String c (a ++ b).
Proof. reflexivity. Qed.

Lemma str_app_nil_r (a : string) : a ++ "" = a.
Proof.
  induction a as [|c a IH]; [reflexivity|]. by rewrite str_app_cons, IH.
Qed.

Lemma str_app_assoc (a b c : string) : (a ++ b) ++ c = a ++ (b ++ c).
Proof.
  induction a as [|d a IH]; [reflexivity|]. by rewrite !str_app_cons, IH.
Qed.

(** ** More on the loop of [run] *)

Section RunFacts.

Context `{P : Platform}.

Implicit Types (s : State) (u v url : string).

(** A pass, read off [loop_body_closed_form]. *)
Lemma step_closed_form s s' :
  step s s' →
  ∃ url order lg,
    (url ∈ urls_to_visit s)
    ∧ order ≡ₚ elements ({[url]} ∪ visited_urls s)
    ∧ max_urls s' = max_urls s
    ∧ output_file s' = output_file s
    ∧ visited_urls s' = {[url]} ∪ visited_urls s
    ∧ urls_to_visit s'
      = (urls_to_visit s ∖ {[url]})
        ∪ (list_to_set (discovered url (before_crawl url s)) ∖ visited_urls s)
    ∧ files s'
      = <[output_file s :=
            default "" (files s !! output_file s) ++ write_lines order]>
          (files s)
    ∧ log s' = (log s ++ crawling url :: lg)%list
    ∧ Forall (fun record => is_info record = false) lg.
Proof.
  destruct 1 as [s url order s' _ Hin Hperm Hbody].
  destruct (loop_body_closed_form url order s Hin) as (b & lg & Hbody' & Hlg).
  rewrite Hbody in Hbody'. injection Hbody' as ->.
  exists url, order, lg. simpl. auto 10.
Qed.

(** X5. The overlap of the two sets after a pass: what overlapped before, less
    the popped URL, and the popped URL itself exactly when it was not yet
    visited and its own page links to it. *)
Theorem pass_overlap url order s :
  url ∈ urls_to_visit s →
  urls_to_visit (loop_body url order s).1 ∩ visited_urls (loop_body url order s).1
  = ((urls_to_visit s ∩ visited_urls s) ∖ {[url]})
    ∪ (if bool_decide ((url ∉ visited_urls s)
                       ∧ (url ∈ discovered url (before_crawl url s)))
       then {[url]} else ∅).
Proof.
  intros Hin.
  destruct (loop_body_closed_form url order s Hin) as (b & lg & -> & _).
  simpl. generalize (discovered url (before_crawl url s)). intros D.
  apply set_eq. intros x. case_bool_decide as Hself; revert Hself;
    destruct (decide (x = url)) as [->|Hne]; set_unfold; tauto.
Qed.

(** X6. Over a run no URL is forgotten: the visited set only grows, and a URL
    that was pending or visited stays pending or visited. *)
Theorem nothing_forgotten s s' :
  rtc step s s' →
  visited_urls s ⊆ visited_urls s'
  ∧ urls_to_visit s ∪ visited_urls s ⊆ urls_to_visit s' ∪ visited_urls s'.
Proof.
  induction 1 as [|s1 s2 s3 Hstep _ [IHv IHa]]; [set_solver|].
  apply step_visited in Hstep as (_ & url & Hin & Hv & Hsub & _).
  split.
  - etrans; [|exact IHv]. rewrite Hv. set_solver.
  - etrans; [|exact IHa]. rewrite Hv. intros x Hx.
    destruct (decide (x = url)) as [->|Hne]; set_solver.
Qed.

(** X7. Over a run the output file is only appended to, and no other file is
    written. *)
Theorem output_appended s s' :
  rtc step s s' →
  output_file s' = output_file s
  ∧ (∀ path, path ≠ output_file s → files s' !! path = files s !! path)
  ∧ ∃ suffix,
      default "" (files s' !! output_file s)
      = default "" (files s !! output_file s) ++ suffix.
Proof.
  induction 1 as [s|s1 s2 s3 Hstep _ (IHo & IHf & suffix & IHs)].
  - split; [reflexivity|]. split; [reflexivity|]. exists "".
    symmetry. apply str_app_nil_r.
  - apply step_closed_form in Hstep
      as (url & order & lg & _ & _ & _ & Ho & _ & _ & Hf & _).
    rewrite Ho in *. split; [exact IHo|]. split.
    + intros path Hne. rewrite (IHf path Hne), Hf.
      by apply lookup_insert_ne.
    + exists (write_lines order ++ suffix). rewrite IHs, Hf.
      rewrite lookup_insert_eq. simpl. by rewrite str_app_assoc.
Qed.

Lemma reachable_budget seeds max out b fs lg s :
  (0 ≤ max)%Z →
  rtc step (init seeds max out b fs lg) s →
  max_urls s = max ∧ (Z.of_nat (size (visited_urls s)) ≤ max)%Z.
Proof.
  intros Hmax Hrun.
  pose proof (rtc_step_max_urls _ _ Hrun) as Hm. simpl in Hm.
  split; [exact Hm|].
  apply rtc_inv_r in Hrun as [Heq|(s1 & _ & Hstep)].
  - subst s. unfold init.
    cbn [visited_urls]. rewrite (size_empty (C:=gset string)). lia.
  - rewrite <- Hm. exact (step_budget _ _ Hstep).
Qed.

(** X8. The loop leaves only when there is nothing left to visit or the budget
    is used up to the last page. *)
Theorem budget_used seeds max out b fs lg s :
  (0 ≤ max)%Z →
  rtc step (init seeds max out b fs lg) s →
  finished s →
  urls_to_visit s = ∅ ∨ Z.of_nat (size (visited_urls s)) = max.
Proof.
  intros Hmax Hrun Hfin.
  destruct (reachable_budget _ _ _ _ _ _ _ Hmax Hrun) as [Hm Hle].
  destruct (decide (urls_to_visit s = ∅)) as [|Hne]; [by left|right].
  destruct (decide (Z.of_nat (size (visited_urls s)) < max)%Z) as [Hlt|]; [|lia].
  exfalso. unfold finished in Hfin.
  assert (loop_guard s = true); [|congruence].
  apply loop_guard_iff. rewrite Hm. auto.
Qed.

(** X9. Without a seed, or with a budget of zero or less, the loop makes no
    pass: nothing is fetched and no file is written. *)
Theorem no_pass_without_work seeds max out b fs lg s :
  seeds = [] ∨ (max ≤ 0)%Z →
  rtc step (init seeds max out b fs lg) s →
  s = init seeds max out b fs lg.
Proof.
  intros Hidle Hrun.
  apply rtc_inv in Hrun as [Heq|(s1 & Hstep & _)]; [by symmetry|].
  apply step_guard, loop_guard_iff in Hstep as [Hne Hlt]. exfalso.
  revert Hne Hlt. unfold init. cbn [urls_to_visit visited_urls max_urls].
  rewrite (size_empty (C:=gset string)).
  destruct Hidle as [->|Hmax]; [intros Hne _; by apply Hne | lia].
Qed.

Lemma eqb_app_prefix (p a b : string) :
  String.eqb (p ++ a) (p ++ b) = String.eqb a b.
Proof.
  induction p as [|c p IH]; [reflexivity|].
  rewrite !str_app_cons. simpl. by rewrite Ascii.eqb_refl.
Qed.

Lemma crawls_app u (lg lg' : list (Level * string)) :
  crawls u (lg ++ lg') = (crawls u lg + crawls u lg')%nat.
Proof. induction lg as [|record lg IH]; simpl; [reflexivity|]. lia. Qed.

Lemma crawls_quiet u (lg : list (Level * string)) :
  Forall (fun record => is_info record = false) lg → crawls u lg = 0%nat.
Proof.
  induction 1 as [|record lg Hquiet _ IH]; simpl; [reflexivity|].
  by rewrite Hquiet, IH.
Qed.

Lemma crawls_pass u url (lg lg' : list (Level * string)) :
  Forall (fun record => is_info record = false) lg' →
  crawls u (lg ++ crawling url :: lg')
  = (crawls u lg + if decide (url = u) then 1 else 0)%nat.
Proof.
  intros Hquiet. rewrite crawls_app. simpl.
  rewrite (crawls_quiet _ _ Hquiet), eqb_app_prefix.
  destruct (decide (url = u)) as [->|Hne].
  - rewrite String.eqb_refl. lia.
  - apply String.eqb_neq in Hne. rewrite Hne. lia.
Qed.

(** What the log tells about a URL, in every state of a run. *)
Lemma crawls_invariant seeds max out b fs lg s u :
  rtc step (init seeds max out b fs lg) s →
  (crawls u (log s) ≤ crawls u lg + 2)%nat
  ∧ (u ∈ urls_to_visit s → u ∈ visited_urls s →
     (crawls u (log s) ≤ crawls u lg + 1)%nat)
  ∧ (u ∉ visited_urls s → crawls u (log s) = crawls u lg)
  ∧ (u ∈ visited_urls s → (crawls u lg < crawls u (log s))%nat).
Proof.
  revert s. apply rtc_ind_r; [|intros s1 s2 _ Hstep (Ha & Hb & Hc & Hd)].
  - unfold init. cbn [log visited_urls urls_to_visit].
    repeat split; try lia; set_solver.
  - apply step_closed_form in Hstep
      as (url & order & lg' & Hin & _ & _ & _ & Hv & Ht & _ & Hl & Hquiet).
    rewrite Hl, Hv, Ht, (crawls_pass _ _ _ _ Hquiet).
    destruct (decide (url = u)) as [->|Hne].
    + destruct (decide (u ∈ visited_urls s1)) as [HinV|HninV].
      * specialize (Hb Hin HinV). specialize (Hd HinV).
        repeat split; try lia; set_solver.
      * specialize (Hc HninV).
        repeat split; try lia; set_solver.
    + rewrite Nat.add_0_r. repeat split.
      * exact Ha.
      * intros HinT HinV. apply Hb; set_solver.
      * intros HninV. apply Hc. set_solver.
      * intros HinV. apply Hd. set_solver.
Qed.

(** X10. No URL is crawled more than twice in a run; it is visited exactly when
    it was crawled; and a URL that was crawled twice is pending no more. *)
Theorem crawled_at_most_twice seeds max out b fs lg s u :
  rtc step (init seeds max out b fs lg) s →
  (crawls u lg ≤ crawls u (log s) ≤ crawls u lg + 2)%nat
  ∧ (u ∈ visited_urls s ↔ (crawls u lg < crawls u (log s))%nat)
  ∧ (crawls u (log s) = (crawls u lg + 2)%nat → u ∉ urls_to_visit s).
Proof.
  intros Hrun.
  destruct (crawls_invariant _ _ _ _ _ _ _ u Hrun) as (Ha & Hb & Hc & Hd).
  destruct (decide (u ∈ visited_urls s)) as [HinV|HninV].
  - specialize (Hd HinV). repeat split; try lia; try done.
    intros Htwice HinT. specialize (Hb HinT HinV). lia.
  - specialize (Hc HninV). repeat split; try lia; try done.
Qed.

End RunFacts.

(** ** [urlsplit], [urlparse] and [urljoin] on strings without brackets *)

Section UrllibFacts.

Import PyStr.

Variable ip : string → PyResult IPVersion.

Lemma contains_app c (a b : string) :
  contains c (a ++ b) = contains c a || contains c b.
Proof.
  induction a as [|d a IH]; [reflexivity|].
  rewrite str_app_cons. simpl. destruct (Ascii.eqb c d); [reflexivity|exact IH].
Qed.

Lemma contains_take c n (s : string) :
  contains c s = false → contains c (take n s) = false.
Proof.
  revert n. induction s as [|d s IH]; intros [|n]; simpl; try reflexivity.
  destruct (Ascii.eqb c d); [discriminate|]. apply IH.
Qed.

Lemma contains_drop c n (s : string) :
  contains c s = false → contains c (drop n s) = false.
Proof.
  revert n. induction s as [|d s IH]; intros [|n]; simpl; try done.
  destruct (Ascii.eqb c d); [discriminate|]. apply IH.
Qed.

Lemma contains_lstrip c p (s : string) :
  contains c s = false → contains c (lstrip p s) = false.
Proof.
  induction s as [|d s IH]; simpl; [done|].
  destruct (p d); simpl; [|done].
  destruct (Ascii.eqb c d); [discriminate|]. exact IH.
Qed.

Lemma contains_rstrip c p (s : string) :
  contains c s = false → contains c (rstrip p s) = false.
Proof.
  induction s as [|d s IH]; simpl; [done|].
  destruct (Ascii.eqb c d) eqn:Hcd; [discriminate|]. intros Hs.
  specialize (IH Hs). destruct (rstrip p s) as [|e r].
  - destruct (p d); simpl; [done|]. by rewrite Hcd.
  - simpl. rewrite Hcd. exact IH.
Qed.

Lemma contains_remove c d (s : string) :
  contains c s = false → contains c (remove d s) = false.
Proof.
  induction s as [|e s IH]; simpl; [done|].
  destruct (Ascii.eqb c e) eqn:Hce; [discriminate|]. intros Hs.
  destruct (Ascii.eqb d e); simpl; [by apply IH|]. rewrite Hce. by apply IH.
Qed.

Lemma bracket_free_iff (s : string) :
  bracket_free s = true ↔ contains "[" s = false ∧ contains "]" s = false.
Proof.
  unfold bracket_free. rewrite andb_true_iff, !negb_true_iff. tauto.
Qed.

Lemma bracket_free_app (a b : string) :
  bracket_free (a ++ b) = bracket_free a && bracket_free b.
Proof.
  unfold bracket_free. rewrite !contains_app.
  destruct (contains "[" a), (contains "[" b), (contains "]" a),
    (contains "]" b); reflexivity.
Qed.

Lemma contains_lower c (s : string) :
  c = "["%char ∨ c = "]"%char → contains c (lower s) = contains c s.
Proof.
  intros Hc. induction s as [|d s IH]; [reflexivity|].
  change (contains c (lower (String d s)))
    with (if Ascii.eqb c (lower_char d) then true else contains c (lower s)).
  change (contains c (String d s))
    with (if Ascii.eqb c d then true else contains c s).
  rewrite IH. replace (Ascii.eqb c (lower_char d)) with (Ascii.eqb c d);
    [reflexivity|].
  destruct Hc as [->| ->]; destruct d as [[] [] [] [] [] [] [] []]; reflexivity.
Qed.

Lemma bracket_free_lower (s : string) :
  bracket_free s = true → bracket_free (lower s) = true.
Proof. unfold bracket_free. rewrite !contains_lower; auto. Qed.

Lemma bracket_free_of (f : string → string) (s : string) :
  (∀ c, contains c s = false → contains c (f s) = false) →
  bracket_free s = true → bracket_free (f s) = true.
Proof.
  intros Hf [Ho Hc]%bracket_free_iff. apply bracket_free_iff. auto.
Qed.

Lemma bracket_free_take n (s : string) :
  bracket_free s = true → bracket_free (take n s) = true.
Proof. apply (bracket_free_of (take n)). intros c. apply contains_take. Qed.

Lemma bracket_free_drop n (s : string) :
  bracket_free s = true → bracket_free (drop n s) = true.
Proof. apply (bracket_free_of (drop n)). intros c. apply contains_drop. Qed.

Lemma bracket_free_lstrip p (s : string) :
  bracket_free s = true → bracket_free (lstrip p s) = true.
Proof. apply (bracket_free_of (lstrip p)). intros c. apply contains_lstrip. Qed.

Lemma bracket_free_strip p (s : string) :
  bracket_free s = true → bracket_free (strip p s) = true.
Proof.
  apply (bracket_free_of (strip p)). intros c Hs.
  by apply contains_rstrip, contains_lstrip.
Qed.

Lemma bracket_free_remove_unsafe (s : string) :
  bracket_free s = true → bracket_free (urllib_parse.remove_unsafe s) = true.
Proof.
  apply (bracket_free_of urllib_parse.remove_unsafe). intros c Hs.
  unfold urllib_parse.remove_unsafe. by do 3 apply contains_remove.
Qed.

Lemma bracket_free_partition c (s : string) :
  bracket_free s = true →
  bracket_free (partition c s).1.1 = true
  ∧ bracket_free (partition c s).2 = true.
Proof.
  intros Hs. unfold partition. destruct (find c s) as [i|]; cbn [fst snd].
  - split; [by apply bracket_free_take | by apply bracket_free_drop].
  - by split.
Qed.

Lemma bracket_free_splitnetloc (url : string) start :
  bracket_free url = true →
  bracket_free (urllib_parse._splitnetloc url start).1 = true
  ∧ bracket_free (urllib_parse._splitnetloc url start).2 = true.
Proof.
  intros Hurl. unfold urllib_parse._splitnetloc. cbn [fst snd]. split.
  - by apply bracket_free_take, bracket_free_drop.
  - by apply bracket_free_drop.
Qed.

Lemma contains_find_none c (s : string) :
  find c s = None → contains c s = false.
Proof.
  induction s as [|d s IH]; simpl; [done|].
  destruct (Ascii.eqb c d); [discriminate|].
  destruct (find c s); [discriminate|]. auto.
Qed.

Lemma contains_take_before c (s : string) i n :
  find c s = Some i → (n ≤ i)%nat → contains c (take n s) = false.
Proof.
  revert i n. induction s as [|d s IH]; intros i [|n]; simpl; try done.
  destruct (Ascii.eqb c d); [intros [= <-]; lia|].
  destruct (find c s) as [j|]; [|discriminate].
  intros [= <-] Hle. apply (IH j); [reflexivity | lia].
Qed.

Lemma contains_remove_same c (s : string) : contains c (remove c s) = false.
Proof.
  induction s as [|d s IH]; simpl; [done|].
  destruct (Ascii.eqb c d) eqn:Hcd; [exact IH|]. simpl. by rewrite Hcd.
Qed.

(** The authority [_splitnetloc] cuts off ends before the first [/], [?]
    or [#]. *)
Lemma splitnetloc_no_delimiter (url : string) start c :
  c = "/"%char ∨ c = "?"%char ∨ c = "#"%char →
  contains c (urllib_parse._splitnetloc url start).1 = false.
Proof.
  intros Hc. unfold urllib_parse._splitnetloc. cbn [fst foldl].
  unfold urllib_parse.find_from.
  set (d0 := String.length url).
  destruct (find c (drop start url)) as [i|] eqn:Hfind;
    [|by apply contains_take, contains_find_none].
  apply (contains_take_before _ _ i); [exact Hfind|].
  destruct Hc as [->|[->| ->]]; rewrite Hfind; simpl;
    repeat match goal with
           | |- context [find ?c ?s] => destruct (find c s); simpl
           end; lia.
Qed.

Lemma checknetloc_returns (netloc : string) :
  contains "/" netloc = false →
  contains "?" netloc = false →
  contains "#" netloc = false →
  urllib_parse._checknetloc netloc = Return tt.
Proof.
  intros Hslash Hquery Hhash. unfold urllib_parse._checknetloc.
  destruct (_ || _); [reflexivity|].
  destruct (all_chars _ _); [reflexivity|].
  assert (Hnone : existsb
            (fun c => contains c
               (remove "?" (remove "#" (remove ":" (remove "@" netloc)))))
            ["/"; "?"; "#"; "@"; ":"]%char = false); [|by rewrite Hnone].
  cbn [existsb].
  rewrite contains_remove_same.
  rewrite (contains_remove "/") by by do 3 apply contains_remove.
  rewrite (contains_remove "#" "?") by apply contains_remove_same.
  rewrite (contains_remove "@" "?")
    by (do 2 apply contains_remove; apply contains_remove_same).
  rewrite (contains_remove ":" "?")
    by (apply contains_remove, contains_remove_same).
  reflexivity.
Qed.

Lemma urlsplit_bracket_free (url scheme0 : string) :
  bracket_free url = true →
  bracket_free scheme0 = true →
  ∃ r, urllib_parse.urlsplit ip url scheme0 = Return r
       ∧ bracket_free (urllib_parse.s_scheme r) = true
       ∧ bracket_free (urllib_parse.s_netloc r) = true
       ∧ bracket_free (urllib_parse.s_path r) = true
       ∧ bracket_free (urllib_parse.s_query r) = true
       ∧ bracket_free (urllib_parse.s_fragment r) = true.
Proof.
  intros Hurl Hscheme. unfold urllib_parse.urlsplit.
  set (url1 := urllib_parse.remove_unsafe _).
  set (scheme1 := urllib_parse.remove_unsafe _).
  assert (Hurl1 : bracket_free url1 = true)
    by by apply bracket_free_remove_unsafe, bracket_free_lstrip.
  assert (Hscheme1 : bracket_free scheme1 = true)
    by by apply bracket_free_remove_unsafe, bracket_free_strip.
  clearbody url1 scheme1. clear Hurl Hscheme url scheme0.
  set (head := match find ":" url1 with Some (S _) => _ | _ => _ end).
  assert (Hhead : bracket_free head.1 = true ∧ bracket_free head.2 = true).
  { subst head. destruct (find ":" url1) as [[|i']|]; [by split| |by split].
    destruct url1 as [|c0 rest]; [by split|].
    destruct (_ && _); cbn [fst snd]; [|by split].
    split; [by apply bracket_free_lower, bracket_free_take
           | by apply bracket_free_drop]. }
  destruct head as [scheme2 url2]. cbn [fst snd] in Hhead.
  destruct Hhead as [Hscheme2 Hurl2]. clear url1 Hurl1 scheme1 Hscheme1.
  set (authority := if String.eqb (take 2 url2) "//" then _ else _).
  assert (Hauthority : ∃ netloc url3,
             authority = Return (netloc, url3)
             ∧ bracket_free netloc = true ∧ bracket_free url3 = true
             ∧ urllib_parse._checknetloc netloc = Return tt).
  { subst authority. destruct (String.eqb (take 2 url2) "//").
    - pose proof (bracket_free_splitnetloc url2 2 Hurl2) as [Hn Hr].
      assert (Hcheck : urllib_parse._checknetloc
                         (urllib_parse._splitnetloc url2 2).1 = Return tt)
        by (apply checknetloc_returns; apply splitnetloc_no_delimiter; auto).
      destruct (urllib_parse._splitnetloc url2 2) as [netloc url3].
      cbn [fst snd] in Hn, Hr, Hcheck. exists netloc, url3.
      pose proof Hn as [-> ->]%bracket_free_iff. by simpl.
    - by exists "", url2. }
  destruct Hauthority as (netloc & url3 & -> & Hnetloc & Hurl3 & Hcheck).
  cbn [mbind PyResult_bind].
  set (tail := if contains "#" url3 then _ else _).
  assert (Htail : bracket_free tail.1 = true ∧ bracket_free tail.2 = true).
  { subst tail. destruct (contains "#" url3); [|by split].
    pose proof (bracket_free_partition "#" url3 Hurl3) as [Hu Hf].
    by destruct (partition "#" url3) as [[u found] f]. }
  destruct tail as [url4 fragment]. cbn [fst snd] in Htail.
  destruct Htail as [Hurl4 Hfragment].
  set (rest := if contains "?" url4 then _ else _).
  assert (Hrest : bracket_free rest.1 = true ∧ bracket_free rest.2 = true).
  { subst rest. destruct (contains "?" url4); [|by split].
    pose proof (bracket_free_partition "?" url4 Hurl4) as [Hu Hq].
    by destruct (partition "?" url4) as [[u found] q]. }
  destruct rest as [url5 query]. cbn [fst snd] in Hrest.
  destruct Hrest as [Hurl5 Hquery]. rewrite Hcheck.
  eexists. split; [reflexivity|]. by cbn.
Qed.

Lemma urlparse_bracket_free (url scheme0 : string) :
  bracket_free url = true →
  bracket_free scheme0 = true →
  ∃ r, urllib_parse.urlparse ip url scheme0 = Return r
       ∧ bracket_free (urllib_parse.scheme r) = true
       ∧ bracket_free (urllib_parse.netloc r) = true
       ∧ bracket_free (urllib_parse.path r) = true
       ∧ bracket_free (urllib_parse.params r) = true
       ∧ bracket_free (urllib_parse.query r) = true
       ∧ bracket_free (urllib_parse.fragment r) = true.
Proof.
  intros Hurl Hscheme. unfold urllib_parse.urlparse.
  destruct (urlsplit_bracket_free url scheme0 Hurl Hscheme)
    as ([scheme1 netloc path query fragment] & -> & Hs & Hn & Hp & Hq & Hf).
  cbn [mbind PyResult_bind] in *.
  cbn [urllib_parse.s_scheme urllib_parse.s_netloc urllib_parse.s_path
       urllib_parse.s_query urllib_parse.s_fragment] in *.
  set (tail := if _ && _ then _ else _).
  assert (Htail : bracket_free tail.1 = true ∧ bracket_free tail.2 = true).
  { subst tail. destruct (_ && _); [|by split].
    unfold urllib_parse._splitparams.
    destruct (if contains "/" path then _ else _) as [i|]; cbn [fst snd];
      [|by split].
    split; [by apply bracket_free_take | by apply bracket_free_drop]. }
  destruct tail as [path1 params]. cbn [fst snd] in Htail.
  destruct Htail as [Hpath1 Hparams].
  eexists. split; [reflexivity|]. by cbn.
Qed.

Lemma bracket_free_if (b : bool) (x y : string) :
  bracket_free x = true → bracket_free y = true →
  bracket_free (if b then x else y) = true.
Proof. by destruct b. Qed.

Lemma urlunparse_bracket_free (scheme netloc url params query fragment : string) :
  bracket_free scheme = true → bracket_free netloc = true →
  bracket_free url = true → bracket_free params = true →
  bracket_free query = true → bracket_free fragment = true →
  bracket_free
    (urllib_parse.urlunparse scheme netloc url params query fragment) = true.
Proof.
  intros Hs Hn Hu Hp Hq Hf.
  unfold urllib_parse.urlunparse, urllib_parse.urlunsplit.
  repeat first
    [ apply bracket_free_if
    | rewrite bracket_free_app; apply andb_true_iff; split
    | assumption
    | reflexivity ].
Qed.

Lemma bracket_free_cons d (s : string) :
  bracket_free (String d s) = true →
  bracket_free (String d "") = true ∧ bracket_free s = true.
Proof.
  change (String d s) with (String d "" ++ s). rewrite bracket_free_app.
  apply andb_true_iff.
Qed.

Lemma split_bracket_free c (s : string) :
  bracket_free s = true → Forall (fun w => bracket_free w = true) (split c s).
Proof.
  induction s as [|d s IH]; intros Hs; simpl; [by repeat constructor|].
  apply bracket_free_cons in Hs as [Hd Hs]. specialize (IH Hs).
  destruct (Ascii.eqb c d); [by constructor|].
  destruct (split c s) as [|w ws]; [by repeat constructor|].
  inversion IH as [|? ? Hw Hws]; subst. constructor; [|exact Hws].
  change (String d w) with (String d "" ++ w). rewrite bracket_free_app.
  by rewrite Hd, Hw.
Qed.

Lemma join_bracket_free (sep : string) parts :
  bracket_free sep = true →
  Forall (fun w => bracket_free w = true) parts →
  bracket_free (join sep parts) = true.
Proof.
  intros Hsep. induction 1 as [|w ws Hw Hws IH]; [reflexivity|].
  destruct ws as [|w' ws]; [exact Hw|].
  change (join sep (w :: w' :: ws)) with (w ++ sep ++ join sep (w' :: ws)).
  rewrite !bracket_free_app, Hw, Hsep. exact IH.
Qed.

Lemma Forall_removelast {A} (Q : A → Prop) (l : list A) :
  Forall Q l → Forall Q (removelast l).
Proof.
  induction 1 as [|x l Hx Hl IH]; simpl; [constructor|].
  destruct l; [constructor|]. by constructor.
Qed.

Lemma Forall_last {A} (Q : A → Prop) (l : list A) d :
  Forall Q l → Q d → Q (List.last l d).
Proof.
  induction 1 as [|x l Hx Hl IH]; simpl; [done|].
  destruct l; [done|]. exact IH.
Qed.

Lemma resolve_bracket_free segments :
  Forall (fun w => bracket_free w = true) segments →
  Forall (fun w => bracket_free w = true) (urllib_parse.resolve segments).
Proof.
  unfold urllib_parse.resolve.
  assert (Hgen : ∀ acc,
             Forall (fun w => bracket_free w = true) acc →
             Forall (fun w => bracket_free w = true) segments →
             Forall (fun w => bracket_free w = true)
               (foldl (fun resolved_path seg =>
                         if String.eqb seg ".." then removelast resolved_path
                         else if String.eqb seg "." then resolved_path
                         else (resolved_path ++ [seg])%list) acc segments)).
  { intros acc Hacc Hsegs. revert acc Hacc.
    induction Hsegs as [|seg segs Hseg _ IH]; intros acc Hacc; simpl; [done|].
    apply IH. destruct (String.eqb seg "..");
      [by apply Forall_removelast|].
    destruct (String.eqb seg "."); [done|].
    apply Forall_app. split; [done|]. by constructor. }
  apply Hgen. constructor.
Qed.

Lemma filter_inner_bracket_free segments :
  Forall (fun w => bracket_free w = true) segments →
  Forall (fun w => bracket_free w = true) (urllib_parse.filter_inner segments).
Proof.
  intros Hsegs. unfold urllib_parse.filter_inner.
  destruct segments as [|first [|second rest]]; [done..|].
  inversion Hsegs as [|? ? Hfirst Hrest]; subst.
  constructor; [exact Hfirst|]. apply Forall_app. split.
  - apply Forall_forall. intros w [_ Hw]%list_elem_of_filter. revert w Hw.
    apply Forall_forall. by apply Forall_removelast.
  - constructor; [|constructor]. by apply Forall_last.
Qed.

(** On a base URL and a reference without brackets [urljoin] returns, and
    what it returns has no bracket. *)
Lemma urljoin_bracket_free (base url : string) :
  bracket_free base = true →
  bracket_free url = true →
  ∃ joined, urllib_parse.urljoin ip base url = Return joined
            ∧ bracket_free joined = true.
Proof.
  intros Hbase Hurl. unfold urllib_parse.urljoin.
  destruct (negb (truthy base)); [by eauto|].
  destruct (negb (truthy url)); [by eauto|].
  destruct (urlparse_bracket_free base "" Hbase eq_refl)
    as (b & -> & Hbs & Hbn & Hbp & Hba & Hbq & Hbf).
  cbn [mbind PyResult_bind].
  destruct (urlparse_bracket_free url (urllib_parse.scheme b) Hurl Hbs)
    as (u & -> & Hus & Hun & Hup & Hua & Huq & Huf).
  cbn [mbind PyResult_bind].
  destruct (_ || _); [by eauto|].
  destruct (_ && _);
    [eexists; split; [reflexivity|]; by apply urlunparse_bracket_free|].
  destruct (_ && _);
    (eexists; split; [reflexivity|]);
    apply urlunparse_bracket_free;
    repeat first [assumption | apply bracket_free_if]; try reflexivity.
  apply join_bracket_free; [reflexivity|].
  set (segments := if String.eqb (take 1 (urllib_parse.path u)) "/"
                   then _ else _).
  assert (Hsegments : Forall (fun w => bracket_free w = true) segments).
  { subst segments. destruct (String.eqb _ "/");
      [by apply split_bracket_free|].
    apply filter_inner_bracket_free, Forall_app. split.
    - destruct (negb _); [apply Forall_removelast|];
        by apply split_bracket_free.
    - by apply split_bracket_free. }
  destruct (urllib_parse.mem _ _); [apply Forall_app; split|].
  - by apply resolve_bracket_free.
  - by repeat constructor.
  - by apply resolve_bracket_free.
Qed.

End UrllibFacts.

(** ** More on [get_linked_urls] *)

Section GeneratorFacts.

Context `{P : Platform}.

Import PyStr.

Implicit Types (base_url html h u : string) (link : Tag) (soup : list Tag).

Lemma link_target_some base_url h u :
  link_target base_url h = Return (Some u) →
  ((startswith h "/" = true
    ∧ urllib_parse.urljoin ip_address base_url h = Return u)
   ∨ (startswith h "/" = false ∧ startswith h "http" = true ∧ u = h))
  ∧ ∃ n, netloc_of u = Return n ∧ netloc_of base_url = Return n.
Proof.
  unfold link_target.
  destruct (startswith h "/") eqn:Hslash.
  - destruct (urllib_parse.urljoin ip_address base_url h) as [c|e] eqn:Hjoin;
      simpl; [|discriminate].
    destruct (netloc_of c) as [n|e] eqn:Hn; simpl; [|discriminate].
    destruct (netloc_of base_url) as [b|e]; simpl; [|discriminate].
    destruct (String.eqb n b) eqn:Heq; [|discriminate].
    intros [= <-]. apply String.eqb_eq in Heq as ->. eauto 10.
  - destruct (startswith h "http") eqn:Hhttp; simpl; [|discriminate].
    destruct (netloc_of h) as [n|e] eqn:Hn; simpl; [|discriminate].
    destruct (netloc_of base_url) as [b|e]; simpl; [|discriminate].
    destruct (String.eqb n b) eqn:Heq; [|discriminate].
    intros [= <-]. apply String.eqb_eq in Heq as ->. eauto 10.
Qed.

Lemma for_links_sound base_url (links : list Tag) u :
  u ∈ (for_links base_url links).1 →
  ∃ link h, link ∈ links ∧ tag_attrs link !! "href" = Some h
            ∧ link_target base_url h = Return (Some u).
Proof.
  induction links as [|link links IH]; simpl; [by intros ?%elem_of_nil|].
  unfold tag_getitem.
  destruct (tag_attrs link !! "href") as [h|] eqn:Hhref; simpl;
    [|by intros ?%elem_of_nil].
  destruct (link_target base_url h) as [[url|]|e] eqn:Htarget;
    [| |by intros ?%elem_of_nil].
  - destruct (for_links base_url links) as [more exc]. simpl in *.
    intros [->|Hin]%elem_of_cons.
    + exists link, h. split; [left|]. auto.
    + destruct (IH Hin) as (link' & h' & Hin' & Hh' & Ht').
      exists link', h'. split; [by right|]. auto.
  - intros Hin. destruct (IH Hin) as (link' & h' & Hin' & Hh' & Ht').
    exists link', h'. split; [by right|]. auto.
Qed.

(** X11. Every URL the generator yields comes from an [a] tag of the document
    with an [href]: it is that [href], which then starts with [http], or
    what [urljoin] makes of an [href] that starts with [/]; and [urlparse]
    gives it the [netloc] of the base URL. This holds for the URLs yielded
    before an exception as well. *)
Theorem yielded_links_sound base_url html u :
  u ∈ (get_linked_urls base_url html).1 →
  ∃ soup link h,
    BeautifulSoup html = Return soup
    ∧ (link ∈ soup) ∧ tag_name link = "a"
    ∧ tag_attrs link !! "href" = Some h
    ∧ ((startswith h "/" = true
        ∧ urllib_parse.urljoin ip_address base_url h = Return u)
       ∨ (startswith h "/" = false ∧ startswith h "http" = true ∧ u = h))
    ∧ ∃ n, netloc_of u = Return n ∧ netloc_of base_url = Return n.
Proof.
  unfold get_linked_urls.
  destruct (BeautifulSoup html) as [soup|e]; [|by intros ?%elem_of_nil].
  intros (link & h & Hin & Hhref & Htarget)%for_links_sound.
  apply list_elem_of_filter in Hin as [[Hname _] Hin].
  apply link_target_some in Htarget as [Hcases Hnetloc].
  exists soup, link, h. auto 10.
Qed.

(** X12. An anchor on which the loop raises ends the generator: the URLs of the
    anchors before it are yielded, those of the anchors after it are
    lost. *)
Theorem raising_href_cuts base_url html (front back : list Tag) link h e yielded :
  BeautifulSoup html = Return (front ++ link :: back)%list →
  tag_name link = "a" →
  tag_attrs link !! "href" = Some h →
  link_target base_url h = Raise e →
  for_links base_url (find_all_a_href front) = (yielded, None) →
  get_linked_urls base_url html = (yielded, Some e).
Proof.
  intros Hsoup Hname Hhref Htarget Hfront.
  unfold get_linked_urls. rewrite Hsoup.
  change (link :: back) with ([link] ++ back)%list.
  rewrite !find_all_a_href_app, for_links_app, Hfront, for_links_app.
  assert (Hlink : for_links base_url (find_all_a_href [link])
                  = ([], Some e)).
  { unfold find_all_a_href. rewrite filter_cons, filter_nil.
    rewrite decide_True by (split; [done | by rewrite Hhref]).
    unfold for_links, tag_getitem. rewrite Hhref.
    cbn [mbind PyResult_bind]. by rewrite Htarget. }
  rewrite Hlink. by rewrite app_nil_r.
Qed.

Lemma link_target_bracket_free base_url h :
  bracket_free base_url = true →
  bracket_free h = true →
  ∃ r, link_target base_url h = Return r.
Proof.
  intros Hbase Hh.
  assert (Hnetloc : ∀ url, bracket_free url = true →
                           ∃ n, netloc_of url = Return n).
  { intros url Hurl. unfold netloc_of.
    destruct (urlparse_bracket_free ip_address url "" Hurl eq_refl)
      as (r & -> & _). by eexists. }
  assert (Hcheck : ∀ url, bracket_free url = true →
             ∃ r, (n ← netloc_of url; b ← netloc_of base_url;
                   if String.eqb n b then Return (Some url) else Return None)
                  = Return r).
  { intros url Hurl. destruct (Hnetloc url Hurl) as [n ->].
    destruct (Hnetloc base_url Hbase) as [b ->]. simpl.
    destruct (String.eqb n b); by eexists. }
  unfold link_target. destruct (startswith h "/").
  - destruct (urljoin_bracket_free ip_address base_url h Hbase Hh)
      as (joined & -> & Hjoined).
    simpl. exact (Hcheck joined Hjoined).
  - destruct (negb (startswith h "http")); simpl; [by eexists|].
    exact (Hcheck h Hh).
Qed.

(** X13. For a base URL and a document whose characters are code points
    below 256 (every [string] here): when the parser accepts the markup
    and neither the base URL nor any [href] has a square bracket, the
    generator raises nothing and runs to exhaustion. [_checknetloc], the
    other place where [urlsplit] raises, passes every authority of such
    characters. *)
Theorem extraction_without_brackets base_url html soup :
  BeautifulSoup html = Return soup →
  bracket_free base_url = true →
  (∀ link h, link ∈ soup → tag_attrs link !! "href" = Some h →
             bracket_free h = true) →
  (get_linked_urls base_url html).2 = None.
Proof.
  intros Hsoup Hbase Hhrefs. unfold get_linked_urls. rewrite Hsoup.
  assert (Hall : Forall (fun link => ∃ h, tag_attrs link !! "href" = Some h
                                         ∧ bracket_free h = true)
                   (find_all_a_href soup)).
  { apply Forall_forall. intros link [[_ [h Hh]] Hin]%list_elem_of_filter.
    exists h. eauto. }
  induction Hall as [|link links (h & Hhref & Hh) _ IH]; [reflexivity|].
  simpl. unfold tag_getitem. rewrite Hhref. cbn [mbind PyResult_bind].
  destruct (link_target_bracket_free base_url h Hbase Hh) as [r ->].
  destruct r as [url|]; [|exact IH].
  by destruct (for_links base_url links).
Qed.

End GeneratorFacts.

(** ** The output file, record by record *)

Section SinkFacts.

Context `{P : Platform}.

Import PyStr.

Lemma write_lines_acc (acc : string) (order : list string) :
  foldl (fun out url => out ++ (url ++ newline)) acc order
  = acc ++ write_lines order.
Proof.
  unfold write_lines. revert acc.
  induction order as [|url order IH]; intros acc; simpl.
  - by rewrite str_app_nil_r.
  - rewrite (IH (acc ++ _)), (IH ("" ++ _)). by rewrite !str_app_assoc.
Qed.

Lemma write_lines_cons (url : string) (order : list string) :
  write_lines (url :: order) = url ++ newline ++ write_lines order.
Proof.
  unfold write_lines at 1. simpl. rewrite write_lines_acc.
  rewrite !str_app_assoc. reflexivity.
Qed.

Lemma write_lines_app (front back : list string) :
  write_lines (front ++ back) = write_lines front ++ write_lines back.
Proof.
  induction front as [|url front IH]; [reflexivity|].
  rewrite <- app_comm_cons, !write_lines_cons, IH.
  by rewrite !str_app_assoc.
Qed.

Lemma split_line (w rest : string) :
  newline_free w = true →
  split "010" (w ++ newline ++ rest) = w :: split "010" rest.
Proof.
  unfold newline_free. induction w as [|d w IH]; intros Hw; [reflexivity|].
  rewrite str_app_cons. cbn [split contains] in *.
  destruct (Ascii.eqb "010" d); [simpl in Hw; discriminate|].
  by rewrite (IH Hw).
Qed.

Lemma split_write_lines (order : list string) :
  Forall (fun url => newline_free url = true) order →
  split "010" (write_lines order) = (order ++ [""])%list.
Proof.
  induction 1 as [|url order Hurl _ IH]; [reflexivity|].
  by rewrite write_lines_cons, split_line, IH.
Qed.

Lemma split_pieces c (s : string) :
  Forall (fun w => contains c w = false) (split c s).
Proof.
  induction s as [|d s IH]; simpl; [by repeat constructor|].
  destruct (Ascii.eqb c d) eqn:Hcd; [by constructor|].
  destruct (split c s) as [|w ws]; [constructor; [|constructor]|].
  - simpl. by rewrite Hcd.
  - inversion IH; subst. constructor; [|done]. simpl. by rewrite Hcd.
Qed.

(** X14. On a file that is new, or that holds what earlier calls wrote,
    [save_visited_urls] leaves a content that [split('\n')] cuts into the
    earlier URLs followed by the saved ones (and an empty last piece),
    provided no URL has a line feed; no piece of [split('\n')] ever has
    one, so a URL with a line feed is never cut out as it was written. *)
Theorem saved_lines_read_back (prev order : list string) s :
  (files s !! output_file s = None ∧ prev = [])
  ∨ files s !! output_file s = Some (write_lines prev) →
  Forall (fun url => newline_free url = true) (prev ++ order) →
  lines_of <$> files (save_visited_urls order s).1 !! output_file s
  = Some (prev ++ order)%list
  ∧ ∀ contents, Forall (fun url => newline_free url = true) (lines_of contents).
Proof.
  intros Hfile Hfree. split.
  - unfold save_visited_urls, modify. simpl. rewrite lookup_insert_eq. simpl.
    f_equal.
    assert (Hold : default "" (files s !! output_file s) = write_lines prev).
    { destruct Hfile as [[-> ->]| ->]; reflexivity. }
    rewrite Hold, <- write_lines_app. unfold lines_of.
    rewrite (split_write_lines _ Hfree).
    rewrite last_last, removelast_last. reflexivity.
  - intros contents. unfold lines_of, newline_free.
    pose proof (split_pieces "010" contents) as Hpieces.
    assert (Hall : Forall (fun url => negb (contains "010" url) = true)
                     (split "010" contents)).
    { eapply Forall_impl; [exact Hpieces|]. by intros w ->. }
    destruct (String.eqb _ ""); [by apply Forall_removelast | exact Hall].
Qed.

End SinkFacts.

(** ** A pass that meets a fault *)

Section FaultFacts.

Context `{P : Platform}.

Implicit Types (s : State) (u url : string).

Lemma write_lines_foldr (order : list string) :
  write_lines order
  = foldr (fun u rest => u ++ String "010" "" ++ rest) "" order.
Proof.
  induction order as [|u order IH]; [reflexivity|].
  rewrite write_lines_cons, IH. reflexivity.
Qed.

(** [crawl] with its log: a failed fetch leaves one record and [crawl]
    returns; after a fetch that gave a page [crawl] logs nothing. *)
Lemma crawl_outcome url s :
  ∃ b lg r,
    crawl url s
    = (set_log (log s ++ lg)
         (set_page b
            (set_urls_to_visit
               (urls_to_visit s
                ∪ (list_to_set (discovered url s) ∖ visited_urls s)) s)), r)
    ∧ (((download_url url s).2 = Return None ∧ r = Return tt
        ∧ ∃ e, lg = [(ERROR,
                      ("Error downloading " ++ url ++ ": " ++ str_exc e)%string)])
       ∨ ((download_url url s).2 ≠ Return None ∧ lg = [])).
Proof.
  unfold crawl, discovered. cbv [mbind M_bind].
  destruct (download_url_world url s) as (b & r & lg & -> & Hlg). simpl.
  assert (Hnoop :
    set_log (log s ++ lg) (set_page b s)
    = set_log (log s ++ lg)
        (set_page b (set_urls_to_visit (urls_to_visit s ∪ (∅ ∖ visited_urls s)) s))).
  { unfold set_log, set_page, set_urls_to_visit; simpl. do 2 f_equal.
    set_solver. }
  destruct r as [html|].
  - subst lg. destruct (PyStr.truthy html).
    + unfold consume, modify, raise. cbv [mbind M_bind mret M_ret].
      rewrite feed_closed_form, set_urls_to_visit_world. simpl.
      destruct (get_linked_urls url html) as [ys [e|]]; simpl;
        eexists b, [], _; (split; [reflexivity|]); right; by split.
    + exists b, [], (Return tt). rewrite list_to_set_nil.
      split; [by rewrite <- Hnoop|]. right. by split.
  - exists b, lg, (Return tt). rewrite list_to_set_nil.
    split; [by rewrite <- Hnoop|]. left. auto.
Qed.

Lemma before_crawl_eq url s :
  url ∈ urls_to_visit s →
  before_crawl url s
  = set_log (log s ++ [(INFO, ("Crawling: " ++ url)%string)])
      (set_urls_to_visit (urls_to_visit s ∖ {[url]}) s).
Proof.
  intros Hin. unfold before_crawl, pop, logging, modify.
  cbv [mbind M_bind]. by rewrite (bool_decide_eq_true_2 _ Hin).
Qed.

(** One pass with its log: what the pass appends after its [Crawling]
    record is the record of the fault it met, if any. *)
Lemma loop_body_outcome url order s :
  url ∈ urls_to_visit s →
  ∃ b lg,
    loop_body url order s
    = (mkState (urls s) (max_urls s) (output_file s)
         ({[url]} ∪ visited_urls s)
         ((urls_to_visit s ∖ {[url]})
          ∪ (list_to_set (discovered url (before_crawl url s)) ∖ visited_urls s))
         b
         (<[output_file s :=
              default "" (files s !! output_file s) ++ write_lines order]>
            (files s))
         (log s ++ (INFO, ("Crawling: " ++ url)%string) :: lg),
       Return tt)
    ∧ (((download_url url (before_crawl url s)).2 = Return None
        ∧ ∃ e, lg = [(ERROR,
                      ("Error downloading " ++ url ++ ": " ++ str_exc e)%string)])
       ∨ (∃ e, (crawl url (before_crawl url s)).2 = Raise e
               ∧ lg = [(ERROR,
                        ("Failed to crawl: " ++ url ++ ". Error: "
                         ++ str_exc e)%string)])
       ∨ ((download_url url (before_crawl url s)).2 ≠ Return None
          ∧ (crawl url (before_crawl url s)).2 = Return tt ∧ lg = [])).
Proof.
  intros Hin. rewrite (before_crawl_eq url s Hin). unfold loop_body, pop.
  cbv [mbind M_bind]. rewrite (bool_decide_eq_true_2 _ Hin).
  unfold logging at 1. unfold modify at 1. cbv beta iota.
  set (s1 := set_log _ _).
  unfold try_finally, try_except.
  destruct (crawl_outcome url s1) as (b & lg & r & Hcrawl & Hcase).
  rewrite Hcrawl. cbn [snd].
  destruct Hcase as [(Hnone & -> & e & ->)|(Hsome & ->)].
  - exists b, [(ERROR, ("Error downloading " ++ url ++ ": " ++ str_exc e)%string)].
    split; [|left; eauto].
    unfold modify, save_visited_urls; simpl. rewrite <- app_assoc. reflexivity.
  - destruct r as [[]|e]; unfold logging, modify, save_visited_urls; simpl.
    + exists b, []. split; [|right; right; auto].
      rewrite app_nil_r. reflexivity.
    + eexists b, [_]. split; [|right; left; eauto].
      rewrite app_nil_r, <- app_assoc. reflexivity.
Qed.

(** C5. A pass over a URL whose fetch fails, or whose extraction raises,
    ends normally. The URL is marked visited; the whole visited set, the
    URL in it, is appended to the output file, each URL followed by a line
    feed; the URL has left the pending set (it comes back only as a link
    yielded by its own page before the fault, never after a failed fetch);
    the fault is logged in one [ERROR] record. The loop then goes on: a
    further pass exists whenever the guard holds, and every further pass
    pops a URL that is pending after this one. *)
Theorem failure_isolation url order s :
  loop_guard s = true →
  url ∈ urls_to_visit s →
  order ≡ₚ elements ({[url]} ∪ visited_urls s) →
  faulted url s →
  ∃ s',
    loop_body url order s = (s', Return tt)
    ∧ step s s'
    ∧ visited_urls s' = {[url]} ∪ visited_urls s
    ∧ (url ∈ order)
    ∧ files s'
      = <[output_file s :=
            default "" (files s !! output_file s)
            ++ foldr (fun u rest => u ++ String "010" "" ++ rest) "" order]>
          (files s)
    ∧ urls_to_visit s'
      = (urls_to_visit s ∖ {[url]})
        ∪ (list_to_set (discovered url (before_crawl url s)) ∖ visited_urls s)
    ∧ (((download_url url (before_crawl url s)).2 = Return None
        ∧ urls_to_visit s' = urls_to_visit s ∖ {[url]}
        ∧ ∃ e, log s'
               = (log s
                  ++ [(INFO, ("Crawling: " ++ url)%string);
                      (ERROR,
                       ("Error downloading " ++ url ++ ": "
                        ++ str_exc e)%string)])%list)
       ∨ (∃ e, (crawl url (before_crawl url s)).2 = Raise e
               ∧ log s'
                 = (log s
                    ++ [(INFO, ("Crawling: " ++ url)%string);
                        (ERROR,
                         ("Failed to crawl: " ++ url ++ ". Error: "
                          ++ str_exc e)%string)])%list))
    ∧ (loop_guard s' = true → ∃ s'', step s' s'')
    ∧ (∀ s'', step s' s'' →
         ∃ next lg,
           (next ∈ urls_to_visit s')
           ∧ visited_urls s'' = {[next]} ∪ visited_urls s'
           ∧ log s''
             = (log s' ++ (INFO, ("Crawling: " ++ next)%string) :: lg)%list).
Proof.
  intros Hg Hin Hperm Hfault.
  destruct (loop_body_outcome url order s Hin) as (b & lg & Hbody & Hcase).
  eexists. split; [exact Hbody|].
  split; [by eapply step_pass|]. cbn [visited_urls urls_to_visit files log].
  split; [reflexivity|].
  split; [rewrite Hperm; apply elem_of_elements; set_solver|].
  split; [by rewrite write_lines_foldr|].
  split; [reflexivity|].
  split; [|split].
  - destruct Hcase as [(Hnone & e & ->)|[(e & Hraise & ->)|(Hsome & Hret & _)]].
    + left. split; [exact Hnone|]. split; [|by exists e].
      unfold discovered. rewrite Hnone. set_solver.
    + right. by exists e.
    + destruct Hfault as [Hnone|[e Hraise]]; congruence.
  - apply step_progress.
  - intros s'' Hstep.
    apply step_closed_form in Hstep
      as (next & order' & lg' & Hnext & _ & _ & _ & Hv & _ & _ & Hl & _).
    exists next, lg'. auto.
Qed.

End FaultFacts.

(** ** The further properties on the sample platforms *)

Section MoreScenarios.

Import Sample.

Ltac member := apply (bool_decide_unpack _); vm_compute; exact I.

Ltac first_pass url order :=
  apply rtc_once, (step_pass _ url order);
  [ vm_compute; reflexivity
  | member
  | vm_compute; solve [reflexivity | apply perm_swap]
  | vm_compute; reflexivity ].

Lemma failure_isolation_witness :
  (faulted A offline_start
   ∧ ∃ s', loop_body A [A] offline_start = (s', Return tt)
           ∧ visited_urls s' = {[A]} ∪ visited_urls offline_start
           ∧ files s'
             = <[out := default "" (files offline_start !! out)
                        ++ A ++ String "010" "" ++ ""]> (files offline_start))
  ∧ (faulted A bad_href_start
     ∧ ∃ s', loop_body A [A] bad_href_start = (s', Return tt)
             ∧ visited_urls s' = {[A]} ∪ visited_urls bad_href_start
             ∧ files s'
               = <[out := default "" (files bad_href_start !! out)
                          ++ A ++ String "010" "" ++ ""]>
                   (files bad_href_start)).
Proof.
  assert (Hoff : faulted A offline_start) by (left; vm_compute; reflexivity).
  assert (Hbad : faulted A bad_href_start)
    by (right; eexists; vm_compute; reflexivity).
  split; (split; [assumption|]).
  - destruct (@failure_isolation offline A [A] offline_start)
      as (s' & Hbody & _ & Hv & _ & Hf & _);
      [ vm_compute; reflexivity | member | vm_compute; reflexivity
      | exact Hoff | ].
    exists s'. auto.
  - destruct (@failure_isolation bad_href_page A [A] bad_href_start)
      as (s' & Hbody & _ & Hv & _ & Hf & _);
      [ vm_compute; reflexivity | member | vm_compute; reflexivity
      | exact Hbad | ].
    exists s'. auto.
Defined.

Lemma consume_set_only_witness :
  @consume offline ([A; B; A], None) offline_start
  = @consume offline ([B; A], None) offline_start.
Proof.
  apply (@consume_set_only offline [A; B; A] [B; A] None offline_start).
  vm_compute. reflexivity.
Defined.

Lemma pass_overlap_witness :
  urls_to_visit (after A [A] self_start) ∩ visited_urls (after A [A] self_start)
  = ((urls_to_visit self_start ∩ visited_urls self_start) ∖ {[A]})
    ∪ (if bool_decide ((A ∉ visited_urls self_start)
                       ∧ (A ∈ discovered A (before_crawl A self_start)))
       then {[A]} else ∅).
Proof. apply (@pass_overlap self_linking A [A] self_start). member. Defined.

Lemma nothing_forgotten_witness :
  visited_urls two_start ⊆ visited_urls (after A [A] two_start)
  ∧ urls_to_visit two_start ∪ visited_urls two_start
    ⊆ urls_to_visit (after A [A] two_start)
      ∪ visited_urls (after A [A] two_start).
Proof.
  apply (@nothing_forgotten two_pages two_start (after A [A] two_start)).
  first_pass A [A].
Defined.

Lemma output_appended_witness :
  output_file (after A [A] two_start) = output_file two_start
  ∧ (∀ path, path ≠ output_file two_start →
             files (after A [A] two_start) !! path = files two_start !! path)
  ∧ ∃ suffix,
      default "" (files (after A [A] two_start) !! output_file two_start)
      = default "" (files two_start !! output_file two_start) ++ suffix.
Proof.
  apply (@output_appended two_pages two_start (after A [A] two_start)).
  first_pass A [A].
Defined.

Lemma budget_used_witness :
  urls_to_visit (after A [A] three_start) = ∅
  ∨ Z.of_nat (size (visited_urls (after A [A] three_start))) = 1%Z.
Proof.
  apply (@budget_used three_pages [A] 1 out None ∅ []
           (after A [A] three_start));
    [lia | first_pass A [A] | vm_compute; reflexivity].
Defined.

Lemma no_pass_without_work_witness : negative_start = negative_start.
Proof.
  apply (@no_pass_without_work offline [] (-1) out None ∅ [] negative_start);
    [by left | apply rtc_refl].
Defined.

Lemma crawled_at_most_twice_witness :
  (crawls A [] ≤ crawls A (log (after A [A] self_start)) ≤ crawls A [] + 2)%nat
  ∧ (A ∈ visited_urls (after A [A] self_start)
     ↔ (crawls A [] < crawls A (log (after A [A] self_start)))%nat)
  ∧ (crawls A (log (after A [A] self_start)) = (crawls A [] + 2)%nat →
     A ∉ urls_to_visit (after A [A] self_start)).
Proof.
  apply (@crawled_at_most_twice self_linking [A] 2 out None ∅ []
           (after A [A] self_start) A).
  first_pass A [A].
Defined.

Lemma yielded_links_sound_witness :
  ∃ soup link h,
    @BeautifulSoup test_site sample_html = Return soup
    ∧ (link ∈ soup) ∧ tag_name link = "a"
    ∧ tag_attrs link !! "href" = Some h
    ∧ ((PyStr.startswith h "/" = true
        ∧ urllib_parse.urljoin (@ip_address test_site) "https://example.com" h
          = Return "https://example.com/page1")
       ∨ (PyStr.startswith h "/" = false ∧ PyStr.startswith h "http" = true
          ∧ "https://example.com/page1" = h))
    ∧ ∃ n, @netloc_of test_site "https://example.com/page1" = Return n
           ∧ @netloc_of test_site "https://example.com" = Return n.
Proof.
  apply (@yielded_links_sound test_site "https://example.com" sample_html
           "https://example.com/page1").
  member.
Defined.

Lemma raising_href_cuts_witness :
  @get_linked_urls broken_link "https://example.com" "broken"
  = (["https://example.com/ok"], Some (ValueError "Invalid IPv6 URL")).
Proof.
  apply (@raising_href_cuts broken_link "https://example.com" "broken"
           [anchor "/ok"] [anchor "/lost"] (anchor "http://[::1")
           "http://[::1");
    vm_compute; reflexivity.
Defined.

Lemma extraction_without_brackets_witness :
  (@get_linked_urls test_site "https://example.com" sample_html).2 = None.
Proof.
  apply (@extraction_without_brackets test_site "https://example.com"
           sample_html sample_soup);
    [vm_compute; reflexivity | vm_compute; reflexivity |].
  intros link h Hin Hhref. unfold sample_soup in Hin.
  repeat (apply elem_of_cons in Hin as [->|Hin];
          [vm_compute in Hhref; by simplify_eq|]).
  by apply elem_of_nil in Hin.
Defined.

Lemma saved_lines_read_back_witness :
  lines_of
    <$> files (save_visited_urls [A] offline_start).1
          !! output_file offline_start
  = Some [A].
Proof.
  apply (@saved_lines_read_back offline [] [A] offline_start).
  - left. split; vm_compute; reflexivity.
  - repeat constructor.
Defined.

End MoreScenarios.
